(** * client_side_ml: lagged feature assembly and the tiny CART regressor

    Shallow embedding of [frontend/app/screens/HomeScreen.tsx].

    The file holds two variants of the screen.  The CART engine
    ([variance], [buildCART], [predictTree], [fitCART]), the feature
    assembler (the [Xy] memo), the CSV parser, the chart data and the
    [train] / [predict] callbacks are those of the later variant; of the
    earlier one [buildSupervised] is embedded.

    Numbers.  A JavaScript [number] is an IEEE-754 binary64 value and is
    modelled as such: [num] is the Standard Library's [spec_float] (signed
    zeros, signed infinities, NaN, and finite values [(-1)^s * m * 2^e]),
    and [+], [-], [*], [/] are its operations at precision 53 and maximal
    exponent 1024, which round to nearest, ties to even, as the language
    prescribes.  Sums are folded in the order the code folds them.
    Comparisons are the IEEE ones: every comparison with NaN is false and
    the two zeros compare equal.  [undefined] read from an array slot is
    identified with NaN: the code only ever passes such a read to
    [Number.isFinite] and to [<=], which treat both alike.

    Two uses of numbers are read at the integers they denote.  Array
    lengths, indices, depths and [minLeaf] are natural numbers, and the
    quantile index [Math.floor((q * m) / 10)] is the integer quotient: for
    lengths below [2^32] the product is exact and the rounded quotient has
    the same integer part.  The comparator [(a, b) => a - b] of the sort is
    used through the sign of its result only, and the difference of two
    finite doubles is negative exactly when the first is the smaller one
    (it may overflow to an infinity of that sign, and, differences of
    unequal doubles never being rounded to zero, it is zero only for equal
    arguments); the sort therefore tests [a < b].

    Errors.  The one operation of the engine that can throw is [X[i][f]]
    on a missing row [X[i]]; a function that can reach it returns an
    [option], [None] standing for the [TypeError]. *)

From Stdlib Require Import QArith Qcanon ZArith Lia Bool Ascii String SpecFloat.
From stdpp Require Import base list gmap strings numbers pretty sorting.
From Equations Require Import Equations.
From Equations.Prop Require Import Logic.

(** ** JavaScript numbers *)

Abbreviation num := spec_float.

Global Instance num_eq_dec : EqDecision num.
Proof. solve_decision. Defined.

Definition NaN : num := S754_nan.

(** The literal [0]. *)
Definition zero : num := S754_zero false.

Definition fadd (a b : num) : num := SFadd 53 1024 a b.
Definition fsub (a b : num) : num := SFsub 53 1024 a b.
Definition fmul (a b : num) : num := SFmul 53 1024 a b.
Definition fdiv (a b : num) : num := SFdiv 53 1024 a b.

(** [Number.isFinite(v)] *)
Definition isFinite (v : num) : bool :=
  match v with
  | S754_zero _ | S754_finite _ _ _ => true
  | S754_infinity _ | S754_nan => false
  end.

(** [a <= b] and [a < b] *)
Definition num_leb (a b : num) : bool := SFleb a b.
Definition num_ltb (a b : num) : bool := SFltb a b.

(** [a > b] *)
Definition num_gtb (a b : num) : bool := SFltb b a.

(** The double denoting a positive integer.  Below [2^53] no rounding
    takes place: the mantissa is the integer shifted to 53 bits. *)
Definition num_of_pos (p : positive) : num :=
  let d := Zpos (digits2_pos p) in
  if (d <=? 53)%Z
  then S754_finite false (Pos.shiftl p (Z.to_N (53 - d))) (d - 53)
  else binary_normalize 53 1024 (Zpos p) 0 false.

Definition num_of_Z (z : Z) : num :=
  match z with
  | Z0 => zero
  | Zpos p => num_of_pos p
  | Zneg p => SFopp (num_of_pos p)
  end.

(** An array length used as a number. *)
Definition num_of_nat (n : nat) : num := num_of_Z (Z.of_nat n).

(** [row[f]]: a slot past the end of the array reads [undefined]. *)
Definition slot (row : list num) (f : nat) : num := default NaN (row !! f).

(** [arr.reduce((a, b) => a + b, 0)] *)
Definition sum (arr : list num) : num := foldl fadd zero arr.

(** ** CART *)

Module Cart.

(** [function variance(arr)] *)
Definition variance (arr : list num) : num :=
  if decide (length arr = 0)%nat then zero
  else
    let m := fdiv (sum arr) (num_of_nat (length arr)) in
    fdiv (foldl (fun s v => fadd s (fmul (fsub v m) (fsub v m))) zero arr)
         (num_of_nat (length arr)).

Inductive CartNode : Type :=
  | Leaf (value : num) (size : nat) (depth : nat)
  | Split (feature : Z) (threshold : num) (left right : CartNode)
          (size : nat) (depth : nat).

Definition node_size (t : CartNode) : nat :=
  match t with Leaf _ s _ => s | Split _ _ _ _ s _ => s end.

Definition node_depth (t : CartNode) : nat :=
  match t with Leaf _ _ d => d | Split _ _ _ _ _ d => d end.

Definition is_leaf (t : CartNode) : bool :=
  match t with Leaf _ _ _ => true | Split _ _ _ _ _ _ => false end.

(** [sorted = [...vals].sort((a, b) => a - b)] on finite numbers.  The
    sort is stable: a value is placed after every value it is not below. *)
Fixpoint insert_asc (v : num) (l : list num) : list num :=
  match l with
  | [] => [v]
  | w :: l' => if num_ltb v w then v :: w :: l' else w :: insert_asc v l'
  end.

Definition sort_asc (l : list num) : list num := foldl (fun acc v => insert_asc v acc) [] l.

(** The finite values of feature [f] over the rows of [X]:
    [X.map((row) => row[f]).filter((v) => Number.isFinite(v))] *)
Definition finite_vals (X : list (list num)) (f : nat) : list num :=
  filter (λ v, isFinite v = true) ((λ row, slot row f) <$> X).

(** The quantile loop [for (let q = 1; q < 10; q++)]. *)
Definition candidates (sorted : list num) : list num :=
  omap (fun q : nat =>
          let idx := (q * length sorted / 10)%nat in
          if decide (idx < length sorted)%nat then sorted !! idx else None)
       (seq 1 9).

(** The four arrays filled by the partition loop. *)
Record parts : Type := Parts {
  pL : list num; pR : list num; pLi : list nat; pRi : list nat
}.

(** One iteration of [for (let i = 0; i < n; i++)].  Reading [X[i][f]] when
    [X] has no row [i] throws a [TypeError], modelled by [None]. *)
Definition partition_step (X : list (list num)) (y : list num) (f : nat) (thr : num)
    (acc : option parts) (i : nat) : option parts :=
  p ← acc;
  row ← X !! i;
  yi ← y !! i;
  if num_leb (slot row f) thr
  then Some (Parts (pL p ++ [yi]) (pR p) (pLi p ++ [i]) (pRi p))
  else Some (Parts (pL p) (pR p ++ [yi]) (pLi p) (pRi p ++ [i])).

Definition partition_rows (X : list (list num)) (y : list num) (f : nat) (thr : num)
    : option parts :=
  foldl (partition_step X y f thr) (Some (Parts [] [] [] [])) (seq 0 (length y)).

(** The running best of the split search. *)
Record best : Type := Best {
  bestGain : num; bestFeat : Z; bestThr : num;
  bestLeftIdx : list nat; bestRightIdx : list nat
}.

Definition best_init : best := Best zero (-1) zero [] [].

(** [parentVar - (L.length / n) * variance(L) - (R.length / n) * variance(R)] *)
Definition gain_of (parentVar : num) (n : nat) (L R : list num) : num :=
  fsub (fsub parentVar
             (fmul (fdiv (num_of_nat (length L)) (num_of_nat n)) (variance L)))
       (fmul (fdiv (num_of_nat (length R)) (num_of_nat n)) (variance R)).

(** Body of [for (const thr of candidates)]. *)
Definition try_threshold (X : list (list num)) (y : list num) (minLeaf : nat)
    (parentVar : num) (f : nat) (acc : option best) (thr : num) : option best :=
  st ← acc;
  p ← partition_rows X y f thr;
  if decide (length (pL p) < minLeaf ∨ length (pR p) < minLeaf)%nat then Some st
  else
    let gain := gain_of parentVar (length y) (pL p) (pR p) in
    if num_gtb gain (bestGain st)
    then Some (Best gain (Z.of_nat f) thr (pLi p) (pRi p))
    else Some st.

(** Body of [for (let f = 0; f < nFeat; f++)]. *)
Definition try_feature (X : list (list num)) (y : list num) (minLeaf : nat)
    (parentVar : num) (acc : option best) (f : nat) : option best :=
  st ← acc;
  let vals := finite_vals X f in
  if decide (vals = []) then Some st
  else foldl (try_threshold X y minLeaf parentVar f) (Some st)
             (candidates (sort_asc vals)).

(** [X[0]?.length ?? 0] *)
Definition nFeat_of (X : list (list num)) : nat :=
  match X with [] => 0%nat | row :: _ => length row end.

Definition search (X : list (list num)) (y : list num) (minLeaf : nat) : option best :=
  foldl (try_feature X y minLeaf (variance y)) (Some best_init) (seq 0 (nFeat_of X)).

(** [y.reduce((a, b) => a + b, 0) / Math.max(1, n)] *)
Definition leaf_value (y : list num) : num :=
  fdiv (sum y) (num_of_nat (Nat.max 1 (length y))).

(** [1e-12]: the double nearest to it, [0x1.19799812dea11p-40]. *)
Definition eps : num := S754_finite false 4951760157141521 (-92).

(** [idx.map((i) => a[i])] *)
Definition pick {A} (a : list A) (idx : list nat) : list A :=
  omap (fun i => a !! i) idx.

(** [function buildCART(X, y, depth = 0, maxDepth = 4, minLeaf = 8)].
    The recursion descends only while [depth < maxDepth]. *)
Equations? buildCART (X : list (list num)) (y : list num)
    (depth maxDepth minLeaf : nat) : option CartNode
    by wf (maxDepth - depth)%nat lt :=
  buildCART X y depth maxDepth minLeaf
    with inspect (bool_decide (length y ≤ minLeaf ∨ maxDepth ≤ depth)%nat) := {
    | exist _ true _ => Some (Leaf (leaf_value y) (length y) depth)
    | exist _ false Hgo =>
        st ← search X y minLeaf;
        if num_leb (bestGain st) eps || bool_decide (bestFeat st < 0)%Z
        then Some (Leaf (leaf_value y) (length y) depth)
        else
          l ← buildCART (pick X (bestLeftIdx st)) (pick y (bestLeftIdx st))
                        (depth + 1) maxDepth minLeaf;
          r ← buildCART (pick X (bestRightIdx st)) (pick y (bestRightIdx st))
                        (depth + 1) maxDepth minLeaf;
          Some (Split (bestFeat st) (bestThr st) l r (length y) depth) }.
Proof.
  all: apply bool_decide_eq_false in Hgo; lia.
Qed.

(** [function predictTree(node, x)].  [x[node.feature]] on a missing slot
    is [undefined], and [undefined <= threshold] is [false]. *)
Definition slotZ (x : list num) (f : Z) : num :=
  if decide (f < 0)%Z then NaN else slot x (Z.to_nat f).

Fixpoint predictTree (node : CartNode) (x : list num) : num :=
  match node with
  | Leaf value _ _ => value
  | Split feature threshold l r _ _ =>
      if num_leb (slotZ x feature) threshold
      then predictTree l x
      else predictTree r x
  end.

Record Model : Type := MkModel { nFeatures : nat; root : CartNode }.

(** [predictBatch: (XX) => XX.map((r) => predictTree(root, r))] *)
Definition predictBatch (m : Model) (XX : list (list num)) : list num :=
  map (predictTree (root m)) XX.

(** [function fitCART(X, y)], with [buildCART]'s default arguments. *)
Definition fitCART (X : list (list num)) (y : list num) : option Model :=
  root ← buildCART X y 0 4 8;
  Some (MkModel (nFeat_of X) root).

End Cart.
(** ** Tables *)

Inductive Cell : Type :=
  | CNumber (v : num)
  | CDate (t : option Z)   (* time value in ms; [None] for an invalid Date *)
  | CString (s : string)
  | CNull.

Record DataFrame : Type := MkDataFrame {
  columns : list string;
  rows : list (gmap string Cell);
  numericCols : list string;
  datetimeKey : option string
}.

(** Truthiness of a [string | null | undefined] value. *)
Definition truthy (s : option string) : bool :=
  match s with Some k => bool_decide (k ≠ "") | None => false end.

(** [a[i]] for a possibly negative index. *)
Definition atZ {A} (a : list A) (i : Z) : option A :=
  if decide (i < 0)%Z then None else a !! Z.to_nat i.

(** What the host supplies: the local calendar fields of a time value
    ([getDay], [getMonth]) and [Math.sin]/[Math.cos] of
    [2 * Math.PI * value / period]. *)
Class Host : Type := MkHost {
  getDateParts : Z → Z * Z;
  sincos : Z → Z → num * num
}.

(** ** Feature assembly (the [Xy] memo) *)

Module Assembler.

Definition LAGS : list Z := [1; 2; 3]%Z.
Definition USE_DATETIME_FEATURES : bool := true.

(** [Math.max(0, ...LAGS)] *)
Definition maxLag : Z := foldr Z.max 0%Z LAGS.

Section WithHost.
Context `{Host}.

(** [getNum(rowIdx, col)] *)
Definition getNum (df : DataFrame) (rowIdx : Z) (col : string) : num :=
  match atZ (rows df) rowIdx with
  | Some r => match r !! col with Some (CNumber v) => v | _ => NaN end
  | None => NaN
  end.

Definition exo_of (df : DataFrame) (target : string) : list string :=
  filter (λ c, c ≠ target) (numericCols df).

(** The four cyclic slots pushed at the end of [makeXAt]. *)
Definition datetime_slots (df : DataFrame) (t : Z) : list num :=
  match datetimeKey df with
  | Some k =>
      if USE_DATETIME_FEATURES && truthy (Some k) then
        match atZ (rows df) t ≫= (λ r, r !! k) with
        | Some (CDate (Some ms)) =>
            let '(weekday, month) := getDateParts ms in
            let d := sincos weekday 7 in
            let m := sincos month 12 in
            [d.1; d.2; m.1; m.2]
        | _ => [zero; zero; zero; zero]
        end
      else []
  | None => []
  end.

(** [makeXAt(t)] *)
Definition makeXAt (df : DataFrame) (target : string) (t : Z) : list num :=
  let exo := exo_of df target in
  map (getNum df t) exo
  ++ concat (map (λ l, getNum df (t - l) target :: map (getNum df (t - l)) exo) LAGS)
  ++ datetime_slots df t.

(** Body of [for (let t = maxLag; t <= N - 2; t++)]: the example pushed at
    [t], if any. *)
Definition example_at (df : DataFrame) (target : string) (t : Z)
    : option (list num * num) :=
  let x := makeXAt df target t in
  if existsb (λ v, negb (isFinite v)) x then None
  else
    let yNext := getNum df (t + 1) target in
    if negb (isFinite yNext) then None else Some (x, yNext).

Record XyT : Type := MkXy {
  X : list (list num);
  y : list num;
  makeNextX : list num;
  xy_maxLag : Z
}.

(** The rows attempted by the loop: [maxLag .. N - 2]. *)
Definition attempted (df : DataFrame) : list Z :=
  seqZ maxLag (Z.of_nat (length (rows df)) - 1 - maxLag).

Definition Xy (df : option DataFrame) (target : option string) : XyT :=
  match df, target with
  | Some d, Some tg =>
      if truthy (Some tg) then
        let ex := omap (example_at d tg) (attempted d) in
        MkXy (ex.*1) (ex.*2)
             (makeXAt d tg (Z.of_nat (length (rows d)) - 1)) maxLag
      else MkXy [] [] [] 0
  | _, _ => MkXy [] [] [] 0
  end.

End WithHost.
End Assembler.

(** ** The earlier lag-1 builder *)

Module Supervised.

Definition lower_ascii (c : ascii) : ascii :=
  let n := nat_of_ascii c in
  if bool_decide (65 ≤ n ≤ 90)%nat then ascii_of_nat (n + 32) else c.

(** [toLowerCase], exact on the comparison with an ASCII literal. *)
Fixpoint toLowerCase (s : string) : string :=
  match s with
  | EmptyString => EmptyString
  | String c s' => String (lower_ascii c) (toLowerCase s')
  end.

(** [df.columns.find(c => c.toLowerCase() === "datetime") ?? "datetime"] *)
Definition dtCol (df : DataFrame) : string :=
  default "datetime"
    (list_find (λ c, toLowerCase c = "datetime") (columns df) ≫= (λ p, Some p.2)).

Definition is_Date (k : string) (r : gmap string Cell) : bool :=
  match r !! k with Some (CDate _) => true | _ => false end.

(** [(r[dtCol] as Date).getTime()] *)
Definition getTime (k : string) (r : gmap string Cell) : option Z :=
  match r !! k with Some (CDate t) => t | _ => None end.

(** [a.getTime() - b.getTime() > 0] between valid Dates. *)
Definition after (k : string) (a b : gmap string Cell) : bool :=
  match getTime k a, getTime k b with
  | Some ta, Some tb => bool_decide (tb < ta)%Z
  | _, _ => false
  end.

(** [Array.prototype.sort] with a consistent comparator is stable: an
    element is placed after every element it does not precede. *)
Fixpoint insert_by {A} (gt : A → A → bool) (a : A) (l : list A) : list A :=
  match l with
  | [] => [a]
  | b :: l' => if gt b a then a :: b :: l' else b :: insert_by gt a l'
  end.

Definition sort_by {A} (gt : A → A → bool) (l : list A) : list A :=
  foldl (λ acc a, insert_by gt a acc) [] l.

(** Against an invalid Date the comparator returns NaN, and it is then not
    a consistent comparator: the order in which [sort] leaves the array is
    the engine's choice.  The engine supplies that order, a rearrangement
    of the array. *)
Class Engine : Type := MkEngine {
  engine_sort : string → list (gmap string Cell) → list (gmap string Cell);
  engine_sort_perm : ∀ k l, engine_sort k l ≡ₚ l
}.

(** The [rows] of [buildSupervised] (returned as [orderedRows]). *)
Definition orderedRows `{Engine} (df : DataFrame) : list (gmap string Cell) :=
  let k := dtCol df in
  let dated := filter (λ r, is_Date k r = true) (rows df) in
  if forallb (λ r, bool_decide (is_Some (getTime k r))) dated
  then sort_by (after k) dated
  else engine_sort k dated.

End Supervised.

(** ** The train / predict lifecycle *)

Module Orchestrator.
Import Cart Assembler.

Record State : Type := MkState {
  df : option DataFrame;
  target : option string;
  model : option Model;
  prediction : option num;
  status : string
}.

Section WithHost.
Context `{Host}.

(** [const train = useCallback(() => ...)].  [None] when [fitCART] throws. *)
Definition train (s : State) : option State :=
  match df s with
  | Some d =>
      if truthy (target s) then
        let xy := Xy (df s) (target s) in
        if decide (length (X xy) < 20)%nat then
          Some (MkState (df s) (target s) (model s) (prediction s)
                  "Not enough rows to train (need >= 20 after cleaning).")
        else
          m ← fitCART (X xy) (y xy);
          Some (MkState (df s) (target s) (Some m) None
                  ("Trained CART with " +:+ pretty (nFeatures m)
                   +:+ " features on " +:+ pretty (length (X xy)) +:+ " rows."))
      else
        Some (MkState (df s) (target s) (model s) (prediction s)
                "Load data and choose a target first.")
  | None =>
      Some (MkState (df s) (target s) (model s) (prediction s)
              "Load data and choose a target first.")
  end.

(** [const predict = useCallback(() => ...)] *)
Definition predict (s : State) : State :=
  match df s, model s with
  | Some d, Some m =>
      if truthy (target s) then
        let xNext := makeNextX (Xy (df s) (target s)) in
        if bool_decide (xNext = []) || existsb (λ v, negb (isFinite v)) xNext then
          MkState (df s) (target s) (model s) (prediction s)
            "Not enough history to build features for t+1. Add more rows."
        else
          MkState (df s) (target s) (model s)
            (head (predictBatch m [xNext]))
            ("Predicted next 1 step: " +:+ default "" (target s) +:+ "(t+1).")
      else
        MkState (df s) (target s) (model s) (prediction s) "Train a model first."
  | _, _ =>
      MkState (df s) (target s) (model s) (prediction s) "Train a model first."
  end.

End WithHost.
End Orchestrator.

(** ** Specification-level descriptions used by the statements below *)

Module CartSpec.
Import Cart.

(** A training example: a feature vector with its label. *)
Abbreviation example := (list num * num)%type.

(** The examples of a node whose value at slot [f] is [<= thr]. *)
Definition left_of (f : nat) (thr : num) (ex : list example) : list example :=
  filter (λ e, num_leb (slot e.1 f) thr = true) ex.

(** The examples taken by the [else] branch of the partition loop. *)
Definition not_left_of (f : nat) (thr : num) (ex : list example) : list example :=
  filter (λ e, num_leb (slot e.1 f) thr = false) ex.

(** The examples of a node whose value at slot [f] is [> thr]. *)
Definition right_of (f : nat) (thr : num) (ex : list example) : list example :=
  filter (λ e, num_gtb (slot e.1 f) thr = true) ex.

(** Row [i] passes the test [X[i][f] <= thr]. *)
Definition row_left (X : list (list num)) (f : nat) (thr : num) (i : nat) : bool :=
  match X !! i with Some row => num_leb (slot row f) thr | None => false end.

(** The result of the partition loop when it does not throw. *)
Definition split_at (X : list (list num)) (y : list num) (f : nat) (thr : num) : parts :=
  let Li := filter (λ i, row_left X f thr i = true) (seq 0 (length y)) in
  let Ri := filter (λ i, row_left X f thr i = false) (seq 0 (length y)) in
  Parts (pick y Li) (pick y Ri) Li Ri.

(** The gain of candidate [(f, thr)], when neither side is below [minLeaf]. *)
Definition valid_gain (X : list (list num)) (y : list num) (minLeaf : nat)
    (c : nat * num) : option num :=
  let p := split_at X y c.1 c.2 in
  if decide (length (pL p) < minLeaf ∨ length (pR p) < minLeaf)%nat then None
  else Some (gain_of (variance y) (length y) (pL p) (pR p)).

(** One candidate considered against the running best. *)
Definition consider (X : list (list num)) (y : list num) (minLeaf : nat)
    (st : best) (c : nat * num) : best :=
  match valid_gain X y minLeaf c with
  | Some gain =>
      if num_gtb gain (bestGain st)
      then Best gain (Z.of_nat c.1) c.2
                (pLi (split_at X y c.1 c.2)) (pRi (split_at X y c.1 c.2))
      else st
  | None => st
  end.

(** The thresholds tried for feature [f]. *)
Definition thresholds (X : list (list num)) (f : nat) : list num :=
  candidates (sort_asc (finite_vals X f)).

(** Every candidate, in the order the two nested loops visit them. *)
Definition all_candidates (X : list (list num)) : list (nat * num) :=
  f ← seq 0 (nFeat_of X); (λ thr, (f, thr)) <$> thresholds X f.

(** The mean in double arithmetic: the values added from the left,
    divided by their number. *)
Definition mean (ys : list num) : num := fdiv (sum ys) (num_of_nat (length ys)).

(** Population variance in double arithmetic: the mean of the squared
    deviations from the mean. *)
Definition pop_variance (ys : list num) : num :=
  match ys with
  | [] => zero
  | _ => fdiv (sum ((λ v, fmul (fsub v (mean ys)) (fsub v (mean ys))) <$> ys))
              (num_of_nat (length ys))
  end.

(** The variance reduction of a split of the labels [ys] into [yL] and
    [yR]: the parent's variance less the children's, weighted by their
    shares. *)
Definition variance_reduction (ys yL yR : list num) : num :=
  fsub (fsub (pop_variance ys)
             (fmul (fdiv (num_of_nat (length yL)) (num_of_nat (length ys)))
                   (pop_variance yL)))
       (fmul (fdiv (num_of_nat (length yR)) (num_of_nat (length ys)))
             (pop_variance yR)).

(** The rational number a finite double denotes. *)
Definition rational_of (v : num) : Qc :=
  match v with
  | S754_finite s m e =>
      Q2Qc (inject_Z (if s then Zneg m else Zpos m) * Qpower 2 e)
  | _ => Q2Qc 0
  end.

(** The arithmetic mean of the numbers that finite doubles denote. *)
Definition exact_mean (ys : list num) : Qc :=
  (foldr (λ v acc, rational_of v + acc) (Q2Qc 0) ys
   / Q2Qc (inject_Z (Z.of_nat (length ys))))%Qc.

(** Candidates as the quantile positions of the distinct sorted values, each
    distinct candidate once. *)
Definition quantiles_of_distinct (vals : list num) : list num :=
  remove_dups (candidates (remove_dups (sort_asc vals))).

(** The examples routed to the left and to the right child of a split
    on [feature] and [threshold], as [predictTree] routes a vector. *)
Definition reach_left (feature : Z) (threshold : num) (ex : list example) : list example :=
  filter (λ e, num_leb (slotZ e.1 feature) threshold = true) ex.

Definition reach_right (feature : Z) (threshold : num) (ex : list example) : list example :=
  filter (λ e, num_leb (slotZ e.1 feature) threshold = false) ex.

(** Every leaf carries the mean of the labels of the examples that reach
    it (and 0 when none does). *)
Fixpoint leaf_means (ex : list example) (t : CartNode) : Prop :=
  match t with
  | Leaf value _ _ =>
      match ex with [] => value = zero | _ => value = mean ex.*2 end
  | Split feature threshold l r _ _ =>
      leaf_means (reach_left feature threshold ex) l
      ∧ leaf_means (reach_right feature threshold ex) r
  end.

(** The examples whose value at [feature] is [<= threshold], and those
    whose value is [> threshold]. *)
Definition le_side (feature : Z) (threshold : num) (ex : list example) : list example :=
  filter (λ e, num_leb (slotZ e.1 feature) threshold = true) ex.

Definition gt_side (feature : Z) (threshold : num) (ex : list example) : list example :=
  filter (λ e, num_gtb (slotZ e.1 feature) threshold = true) ex.

(** The invariant of split nodes, for the tree built from [ex]. *)
Fixpoint split_inv (maxDepth minLeaf : nat) (ex : list example) (t : CartNode) : Prop :=
  match t with
  | Leaf _ _ _ => True
  | Split feature threshold l r size depth =>
      let exL := le_side feature threshold ex in
      let exR := gt_side feature threshold ex in
      buildCART exL.*1 exL.*2 (depth + 1) maxDepth minLeaf = Some l
      ∧ buildCART exR.*1 exR.*2 (depth + 1) maxDepth minLeaf = Some r
      ∧ (minLeaf ≤ length exL)%nat ∧ (minLeaf ≤ length exR)%nat
      ∧ size = length ex
      ∧ node_depth l = (depth + 1)%nat ∧ node_depth r = (depth + 1)%nat
      ∧ split_inv maxDepth minLeaf exL l ∧ split_inv maxDepth minLeaf exR r
  end.

(** The order in which the nested loops visit candidates: by feature
    index, then by threshold. *)
Definition visit_le (a b : nat * num) : Prop :=
  (a.1 < b.1)%nat ∨ (a.1 = b.1 ∧ num_leb a.2 b.2 = true).

(** Feature vectors of width [w] whose slots are all finite. *)
Definition finite_rows (w : nat) (ex : list example) : Prop :=
  Forall (λ e : example, length e.1 = w ∧ Forall (λ v, isFinite v = true) e.1) ex.

End CartSpec.

(** ** Specification-level descriptions of the assembler's input order *)

Module AssemblerSpec.

(** A row whose timestamp cell is a valid Date. *)
Definition valid_timestamp (k : string) (r : gmap string Cell) : bool :=
  match r !! k with Some (CDate (Some _)) => true | _ => false end.

(** The rows with a valid timestamp, in ascending order of time (all rows
    as they are when the table has no timestamp column). *)
Definition by_timestamp (d : DataFrame) : DataFrame :=
  match datetimeKey d with
  | Some k =>
      MkDataFrame (columns d)
        (Supervised.sort_by (Supervised.after k)
           (filter (λ r, valid_timestamp k r = true) (rows d)))
        (numericCols d) (datetimeKey d)
  | None => d
  end.

(** Two tables that differ at most in their rows. *)
Definition same_schema (d1 d2 : DataFrame) : Prop :=
  numericCols d1 = numericCols d2 ∧ datetimeKey d1 = datetimeKey d2.

(** Ascending order of time between rows with a valid Date. *)
Definition time_le (k : string) (a b : gmap string Cell) : Prop :=
  match Supervised.getTime k a, Supervised.getTime k b with
  | Some ta, Some tb => (ta ≤ tb)%Z
  | _, _ => False
  end.

(** The width of a feature vector: it depends on the table's schema only. *)
Definition width_of (d : DataFrame) (tg : string) : nat :=
  (length (Assembler.exo_of d tg) + 3 * (1 + length (Assembler.exo_of d tg))
   + (if truthy (datetimeKey d) then 4 else 0))%nat.

(** No row carries an invalid Date in column [k]. *)
Definition dates_valid (k : string) (rs : list (gmap string Cell)) : Prop :=
  Forall (λ r, r !! k ≠ Some (CDate None)) rs.

End AssemblerSpec.

(** ** Concrete inputs *)

Module Samples.
Import Cart.

Definition qz (z : Z) : num := num_of_Z z.

(** One feature, ten rows: the value 1 once and the value 2 nine times. *)
Definition X_dup : list (list num) :=
  (λ z, [qz z]) <$> [1; 2; 2; 2; 2; 2; 2; 2; 2; 2]%Z.

(** Twenty examples of width 1: feature values 1..20, label 1 for the first
    ten and 5 for the last ten. *)
Definition ex20 : list (list num * num) :=
  (λ z, ([qz z], if decide (z ≤ 10)%Z then qz 1 else qz 5)) <$> seqZ 1 20.

(** Twenty examples of width 1 with the constant label 7. *)
Definition ex_const : list (list num * num) :=
  (λ z, ([qz z], qz 7)) <$> seqZ 1 20.

(** A host on UTC.  [sincos] is exact at value 0, where the sine is 0 and
    the cosine 1; this is the only value the tables below produce (Sundays
    in January), and elsewhere the host returns the same pair as a
    stand-in. *)
Definition utc_month (days : Z) : Z :=
  let z := (days + 719468)%Z in
  let era := (z `div` 146097)%Z in
  let doe := (z - era * 146097)%Z in
  let yoe := ((doe - doe `div` 1460 + doe `div` 36524 - doe `div` 146096) `div` 365)%Z in
  let doy := (doe - (365 * yoe + yoe `div` 4 - yoe `div` 100))%Z in
  let mp := ((5 * doy + 2) `div` 153)%Z in
  if decide (mp < 10)%Z then (mp + 2)%Z else (mp - 10)%Z.

Definition utc_host : Host :=
  MkHost (λ ms, let days := (ms `div` 86400000)%Z in
                (((days + 4) `mod` 7)%Z, utc_month days))
         (λ _ _, (zero, qz 1)).

(** Midnight UTC of the [n]-th Sunday after 2023-01-01. *)
Definition sunday (n : Z) : Z := (1672531200000 + n * 604800000)%Z.

Definition row_a (date : Cell) (a : Z) : gmap string Cell :=
  {[ "datetime" := date; "a" := CNumber (qz a) ]}.

Definition frame (rs : list (gmap string Cell)) : DataFrame :=
  MkDataFrame ["datetime"; "a"] rs ["a"] (Some "datetime").

(** Five rows stored out of time order: the first two are swapped. *)
Definition df_unsorted : DataFrame :=
  frame [ row_a (CDate (Some (sunday 1))) 2; row_a (CDate (Some (sunday 0))) 1;
          row_a (CDate (Some (sunday 2))) 3; row_a (CDate (Some (sunday 3))) 4;
          row_a (CDate (Some (sunday 4))) 5 ].

(** Six rows in time order, the first without a timestamp. *)
Definition df_gap : DataFrame :=
  frame [ row_a CNull 1; row_a (CDate (Some (sunday 0))) 2;
          row_a (CDate (Some (sunday 1))) 3; row_a (CDate (Some (sunday 2))) 4;
          row_a (CDate (Some (sunday 3))) 5; row_a (CDate (Some (sunday 4))) 6 ].

(** [n] rows without a timestamp column: [a = 1] in the first half, 5 after. *)
Definition df_plain (n : nat) : DataFrame :=
  MkDataFrame ["a"]
    ((λ z, {[ "a" := CNumber (if decide (2 * z ≤ Z.of_nat n)%Z then qz 1 else qz 5) ]})
       <$> seqZ 1 (Z.of_nat n))
    ["a"] None.

(** The double nearest to 0.1, and the double [10^15 + 0.25]. *)
Definition tenth : num := S754_finite false 7205759403792794 (-56).
Definition big : num := S754_finite false 8000000000000002 (-3).

(** Twenty examples of width 1 with feature value 1 and the label 0.1. *)
Definition ex_tenth : list (list num * num) :=
  (λ _, ([qz 1], tenth)) <$> seqZ 1 20.

(** Twenty-three examples of width 1: feature values 1..23, every label
    [10^15 + 0.25]. *)
Definition ex_big : list (list num * num) :=
  (λ z, ([qz z], big)) <$> seqZ 1 23.

(** An engine that leaves an array it cannot order as it is. *)
Definition stored_engine : Supervised.Engine :=
  Supervised.MkEngine (λ _ l, l) (λ _ l, reflexivity l).

(** Orchestrator states holding an earlier model, over tables that yield
    19 and 20 examples. *)
Definition prior : Model := MkModel 1 (Leaf zero 0 0).

Definition state19 : Orchestrator.State :=
  Orchestrator.MkState (Some (df_plain 23)) (Some "a") (Some prior) None "Loaded.".

Definition state20 : Orchestrator.State :=
  Orchestrator.MkState (Some (df_plain 24)) (Some "a") (Some prior) None "Loaded.".

End Samples.

(** ** The shape of a tree *)

Module TreeShape.
Import Cart CartSpec.

(** The [size] fields of the leaves, left to right. *)
Fixpoint leaf_sizes (t : CartNode) : list nat :=
  match t with
  | Leaf _ size _ => [size]
  | Split _ _ l r _ _ => leaf_sizes l ++ leaf_sizes r
  end.

(** The [depth] fields of all nodes. *)
Fixpoint node_depths (t : CartNode) : list nat :=
  match t with
  | Leaf _ _ depth => [depth]
  | Split _ _ l r _ depth => depth :: node_depths l ++ node_depths r
  end.

(** The (feature, threshold) pairs of the split nodes. *)
Fixpoint splits (t : CartNode) : list (Z * num) :=
  match t with
  | Leaf _ _ _ => []
  | Split feature threshold l r _ _ => (feature, threshold) :: splits l ++ splits r
  end.

(** The examples that [predictTree] routes to the same leaf as [x]. *)
Fixpoint co_routed (t : CartNode) (x : list num) (ex : list example) : list example :=
  match t with
  | Leaf _ _ _ => ex
  | Split feature threshold l r _ _ =>
      if num_leb (slotZ x feature) threshold
      then co_routed l x (reach_left feature threshold ex)
      else co_routed r x (reach_right feature threshold ex)
  end.

End TreeShape.

(** ** Names of the feature slots, and complete tables *)

Module Names.
Import Assembler.

(** The [featNames] built by the [Xy] memo. *)
Definition featNames (df : DataFrame) (target : string) : list string :=
  let exo := exo_of df target in
  map (λ s, s +:+ "(t)") exo
  ++ concat (map (λ l : Z,
                    (target +:+ "(t-" +:+ pretty l +:+ ")")
                    :: map (λ s, s +:+ "(t-" +:+ pretty l +:+ ")") exo)
                 LAGS)
  ++ (if USE_DATETIME_FEATURES && truthy (datetimeKey df)
      then ["dow_sin"; "dow_cos"; "mon_sin"; "mon_cos"]
      else []).

(** Cell [c] of row [r] holds a finite number. *)
Definition cell_finite (r : gmap string Cell) (c : string) : bool :=
  match r !! c with Some (CNumber v) => isFinite v | _ => false end.

(** Every numeric column holds a finite number in every row. *)
Definition complete_table (d : DataFrame) : Prop :=
  Forall (λ r, Forall (λ c, cell_finite r c = true) (numericCols d)) (rows d).

(** The host's sines and cosines are finite numbers. *)
Definition finite_host `{Host} : Prop :=
  ∀ value period,
    isFinite (sincos value period).1 = true
    ∧ isFinite (sincos value period).2 = true.

End Names.

(** ** The screen's state transitions *)

Module Lifecycle.
Import Cart Orchestrator.

(** The state the screen starts in. *)
Definition initial : State := MkState None None None None "".

(** The state updates at the end of a successful [onFileChange]. *)
Definition loaded (parsed : DataFrame) (s : State) : State :=
  MkState (Some parsed) (head (numericCols parsed)) None None "Loaded.".

(** [setTarget(s)], from the target chooser. *)
Definition setTarget (tg : string) (s : State) : State :=
  MkState (df s) (Some tg) (model s) (prediction s) (status s).

Inductive event : Type :=
  | Load (parsed : DataFrame)
  | Choose (tg : string)
  | Train
  | Predict.

Section WithHost.
Context `{Host}.

Definition step (s : State) (e : event) : option State :=
  match e with
  | Load parsed => Some (loaded parsed s)
  | Choose tg => Some (setTarget tg s)
  | Train => train s
  | Predict => Some (predict s)
  end.

Definition run (events : list event) (s : State) : option State :=
  foldl (λ acc e, acc ≫= (λ s, step s e)) (Some s) events.

End WithHost.
End Lifecycle.

(** ** CSV parsing and schema detection *)

Module Csv.

(** Strings are sequences of bytes.  The parser compares characters only
    with ASCII ones, which no byte of a multi-byte UTF-8 character equals,
    so working on bytes splits a line exactly where the code splits it. *)
Definition quote : ascii := ascii_of_nat 34.
Definition comma : ascii := ascii_of_nat 44.
Definition backslash : ascii := ascii_of_nat 92.
Definition LF : ascii := ascii_of_nat 10.
Definition CR : ascii := ascii_of_nat 13.

(** [cur += c] *)
Definition push_char (cur : string) (c : ascii) : string := cur +:+ String c "".

(** The loop of [splitCsvLine]; [prev] is [line[i - 1]], absent at [i = 0]. *)
Fixpoint split_loop (line : string) (prev : option ascii)
    (out : list string) (cur : string) (inQuotes : bool) : list string * string :=
  match line with
  | EmptyString => (out, cur)
  | String c rest =>
      if bool_decide (c = quote) && bool_decide (prev ≠ Some backslash)
      then split_loop rest (Some c) out cur (negb inQuotes)
      else if bool_decide (c = comma) && negb inQuotes
      then split_loop rest (Some c) (out ++ [cur]) "" inQuotes
      else split_loop rest (Some c) out (push_char cur c) inQuotes
  end.

(** [function splitCsvLine(line, nCols)] *)
Definition splitCsvLine (line : string) (nCols : nat) : list string :=
  let '(out, cur) := split_loop line None [] "" false in
  let out := out ++ [cur] in
  out ++ replicate (nCols - length out) "".

(** [s.split(",")] *)
Fixpoint split_commas (s : string) (cur : string) : list string :=
  match s with
  | EmptyString => [cur]
  | String c rest =>
      if bool_decide (c = comma) then cur :: split_commas rest ""
      else split_commas rest (push_char cur c)
  end.

(** [parts.join(",")] *)
Fixpoint join_commas (parts : list string) : string :=
  match parts with
  | [] => ""
  | [a] => a
  | a :: parts' => a +:+ String comma "" +:+ join_commas parts'
  end.

(** [text.split(/\r?\n/)] *)
Fixpoint split_lines (text : string) (cur : string) : list string :=
  match text with
  | EmptyString => [cur]
  | String c rest =>
      if bool_decide (c = LF) then cur :: split_lines rest ""
      else
        match rest with
        | String c' rest' =>
            if bool_decide (c = CR) && bool_decide (c' = LF)
            then cur :: split_lines rest' ""
            else split_lines rest (push_char cur c)
        | EmptyString => [push_char cur c]
        end
  end.

(** What the host's string functions supply: [trim], the time value of
    [new Date(t)] ([None] when the date is invalid) and [Number(t)]. *)
Class Parsers : Type := MkParsers {
  trim : string → string;
  parseDate : string → option Z;
  parseNumber : string → num
}.

(** [/[-T:\/]/.test(t)] *)
Fixpoint date_like (t : string) : bool :=
  match t with
  | EmptyString => false
  | String c rest =>
      bool_decide (c ∈ [ascii_of_nat 45; ascii_of_nat 84; ascii_of_nat 58; ascii_of_nat 47])
      || date_like rest
  end.

Definition isNaN (v : num) : bool :=
  match v with S754_nan => true | _ => false end.

(** The columns named as the timestamp: [datetime], [date] or [time],
    whatever the case. *)
Definition names_time (h : string) : Prop :=
  Supervised.toLowerCase h = "datetime"
  ∨ Supervised.toLowerCase h = "date"
  ∨ Supervised.toLowerCase h = "time".

Global Instance names_time_dec h : Decision (names_time h).
Proof. unfold names_time. apply _. Defined.

(** [typeof r[h] === "number"] *)
Definition is_number (r : gmap string Cell) (h : string) : bool :=
  match r !! h with Some (CNumber _) => true | _ => false end.

(** The end of [parseCSV] and of [parseXLSX]: the timestamp column and the
    numeric columns of a table. *)
Definition detect (columns : list string) (rows : list (gmap string Cell))
    : DataFrame :=
  let datetimeKey := (list_find names_time columns) ≫= (λ p, Some p.2) in
  let numericCols :=
    filter (λ h,
              ¬ (truthy datetimeKey = true ∧ Some h = datetimeKey)
              ∧ (Nat.max 1 (length rows / 2)
                 ≤ length (filter (λ r, is_number r h = true) rows))%nat)
           columns in
  MkDataFrame columns rows numericCols datetimeKey.

(** A cell that is neither an invalid Date, nor NaN, nor an empty string. *)
Definition well_formed_cell (c : Cell) : Prop :=
  c ≠ CDate None ∧ c ≠ CNumber NaN ∧ c ≠ CString "".

Section WithParsers.
Context `{Parsers}.

(** [function coerce(v)] *)
Definition coerce (v : option string) : Cell :=
  match v with
  | None => CNull
  | Some v =>
      let t := trim v in
      if bool_decide (t = "") then CNull
      else
        let number_or_text :=
          let n := parseNumber t in
          if isNaN n then CString t else CNumber n in
        match parseDate t with
        | Some ms => if date_like t then CDate (Some ms) else number_or_text
        | None => number_or_text
        end
  end.

(** The non-blank, trimmed lines of a text. *)
Definition csv_lines (text : string) : list string :=
  filter (λ l, l ≠ "") (map trim (split_lines text "")).

(** [row[h] = value] on an object literal.  For the name [__proto__] the
    assignment runs the setter inherited from [Object.prototype] and
    creates no property of the row; the values [coerce] returns there (a
    number, a string, a Date or null) add none either. *)
Definition assign (row : gmap string Cell) (h : string) (value : Cell)
    : gmap string Cell :=
  if bool_decide (h = "__proto__") then row else <[h := value]> row.

(** The row object built from one line: [row[h] = coerce(parts[idx])]. *)
Definition parse_row (header : list string) (line : string) : gmap string Cell :=
  let parts := splitCsvLine line (length header) in
  foldl (λ row p, assign row p.2 (coerce (parts !! p.1))) ∅
        (zip (seq 0 (length header)) header).

(** [function parseCSV(text)] of the later variant. *)
Definition parseCSV (text : string) : DataFrame :=
  match csv_lines text with
  | header_line :: line1 :: body =>
      let header := map trim (split_commas header_line "") in
      detect header (map (parse_row header) (line1 :: body))
  | _ => MkDataFrame [] [] [] None
  end.

End WithParsers.
End Csv.

(** ** Colours and series toggles *)

Module Chips.

Definition PALETTE : list string :=
  [ "#1f77b4"; "#ff7f0e"; "#2ca02c"; "#d62728"; "#9467bd";
    "#8c564b"; "#e377c2"; "#7f7f7f"; "#bcbd22"; "#17becf";
    "#393b79"; "#637939"; "#8c6d31"; "#843c39"; "#7b4173" ].

(** [function colorFor(idx)]; [%] takes the sign of [idx], and a negative
    index reads [undefined]. *)
Definition colorFor (idx : Z) : option string :=
  atZ PALETTE (Z.rem idx (Z.of_nat (length PALETTE))).

(** The [visible] map set by a successful [onFileChange]. *)
Definition all_visible (numericCols : list string) : gmap string bool :=
  foldl (λ vis c, <[c := true]> vis) ∅ numericCols.

(** [toggleSeries(key)]: [{ ...prev, [key]: !prev[key] }] *)
Definition toggleSeries (key : string) (prev : gmap string bool) : gmap string bool :=
  <[key := negb (default false (prev !! key))]> prev.

(** [visible[s] ?? true], the state of the chip. *)
Definition chip_on (vis : gmap string bool) (s : string) : bool :=
  default true (vis !! s).

(** [visible[s] ? <Line/> : null], whether the line is drawn. *)
Definition line_drawn (vis : gmap string bool) (s : string) : bool :=
  default false (vis !! s).

End Chips.

(** ** The examples of the earlier lag-1 builder *)

Module Lag1.
Import Csv.

(** [cols.map(c => (typeof r[c] === "number" ? r[c] : NaN))] *)
Definition nums (cols : list string) (r : gmap string Cell) : list num :=
  map (λ c, match r !! c with Some (CNumber v) => v | _ => NaN end) cols.

Section WithParsers.
Context `{Parsers} `{Supervised.Engine}.

(** The global [isFinite(label)], which converts its argument to a number
    first: [null] to 0, a Date to its time value, a string by [Number]. *)
Definition label_finite (label : option Cell) : bool :=
  match label with
  | None => false
  | Some CNull => true
  | Some (CNumber v) => isFinite v
  | Some (CDate t) => bool_decide (is_Some t)
  | Some (CString s) => isFinite (parseNumber s)
  end.

(** Body of [for (let i = 1; i < rows.length; i++)] in [buildSupervised]:
    the example pushed for the rows [prev] and [cur], if any. *)
Definition pair_example (cols : list string) (target : string)
    (prev cur : gmap string Cell) : option (list num * Cell) :=
  let curNums := nums cols cur in
  let prevNums := nums cols prev in
  if existsb (λ n, negb (isFinite n)) curNums
     || existsb (λ n, negb (isFinite n)) prevNums
  then None
  else
    match cur !! target with
    | Some label =>
        if label_finite (Some label) then Some (curNums ++ prevNums, label)
        else None
    | None => None
    end.

(** [function buildSupervised(df, target)]: [X], [y] and [orderedRows]. *)
Definition buildSupervised (df : DataFrame) (target : string)
    : list (list num) * list Cell * list (gmap string Cell) :=
  let rows := Supervised.orderedRows df in
  let ex := omap (λ p, pair_example (numericCols df) target p.1 p.2)
                 (zip rows (tail rows)) in
  (ex.*1, ex.*2, rows).

End WithParsers.
End Lag1.

(** ** The points handed to the chart *)

Module Chart.








End Chart.


(** ** The order of doubles, read off their representation *)

Module NumOrder.

(** A double that is not NaN, as a triple ordered lexicographically: the
    class (infinities outermost, zeros in the middle), then the exponent
    and the mantissa, both negated for negative values. *)
Definition key (x : num) : Z * Z * Z :=
  match x with
  | S754_nan => (0, 0, 0)%Z
  | S754_infinity true => (-2, 0, 0)%Z
  | S754_infinity false => (2, 0, 0)%Z
  | S754_zero _ => (0, 0, 0)%Z
  | S754_finite false m e => (1, e, Zpos m)%Z
  | S754_finite true m e => (-1, - e, Zneg m)%Z
  end.

Definition key_cmp (a b : Z * Z * Z) : comparison :=
  match (a.1.1 ?= b.1.1)%Z with
  | Eq => match (a.1.2 ?= b.1.2)%Z with
          | Eq => (a.2 ?= b.2)%Z
          | c => c
          end
  | c => c
  end.

Definition key_lt (a b : Z * Z * Z) : Prop :=
  (a.1.1 < b.1.1
   ∨ (a.1.1 = b.1.1 ∧ (a.1.2 < b.1.2 ∨ (a.1.2 = b.1.2 ∧ a.2 < b.2))))%Z.

Definition key_le (a b : Z * Z * Z) : Prop :=
  (a.1.1 < b.1.1
   ∨ (a.1.1 = b.1.1 ∧ (a.1.2 < b.1.2 ∨ (a.1.2 = b.1.2 ∧ a.2 ≤ b.2))))%Z.

Definition not_nan (x : num) : Prop := x ≠ S754_nan.

(** [a <= b] holds. *)
Definition num_le (a b : num) : Prop := num_leb a b = true.

End NumOrder.

(** ** Candidate splits, as the specification describes them *)

Module SplitSpec.
Import Cart CartSpec.

(** Candidate [(f, thr)] leaves at least [minLeaf] examples on either
    side. *)
Definition admissible (minLeaf : nat) (ex : list example) (c : nat * num) : Prop :=
  (minLeaf ≤ length (left_of c.1 c.2 ex))%nat
  ∧ (minLeaf ≤ length (not_left_of c.1 c.2 ex))%nat.

(** The variance reduction that candidate [(f, thr)] achieves on the
    examples [ex]. *)
Definition reduction_at (ex : list example) (c : nat * num) : num :=
  variance_reduction ex.*2 (left_of c.1 c.2 ex).*2 (not_left_of c.1 c.2 ex).*2.

End SplitSpec.

(** * Properties *)

Import Cart CartSpec NumOrder.

(** ** The order of doubles *)

Lemma key_cmp_Lt a b : key_cmp a b = Lt ↔ key_lt a b.
Proof.
  destruct a as [[a1 a2] a3], b as [[b1 b2] b3]. unfold key_cmp, key_lt. simpl.
  destruct (Z.compare_spec a1 b1); [|split; [lia|done]|split; [done|lia]].
  destruct (Z.compare_spec a2 b2); [|split; [lia|done]|split; [done|lia]].
  destruct (Z.compare_spec a3 b3); split; try done; lia.
Qed.

Lemma key_cmp_Gt a b : key_cmp a b = Gt ↔ key_lt b a.
Proof.
  destruct a as [[a1 a2] a3], b as [[b1 b2] b3]. unfold key_cmp, key_lt. simpl.
  destruct (Z.compare_spec a1 b1); [|split; [done|lia]|split; [lia|done]].
  destruct (Z.compare_spec a2 b2); [|split; [done|lia]|split; [lia|done]].
  destruct (Z.compare_spec a3 b3); split; try done; lia.
Qed.

Lemma key_cmp_le a b : key_cmp a b ≠ Gt ↔ key_le a b.
Proof.
  rewrite key_cmp_Gt.
  destruct a as [[a1 a2] a3], b as [[b1 b2] b3]. unfold key_lt, key_le. simpl. lia.
Qed.

Lemma SFcompare_key (x y : num) :
  not_nan x → not_nan y → SFcompare x y = Some (key_cmp (key x) (key y)).
Proof.
  intros Hx Hy.
  destruct x as [[]|[]| |[] mx ex], y as [[]|[]| |[] my ey]; try done;
    unfold key_cmp; simpl.
  all: rewrite ?Z.compare_opp, ?(Z.compare_antisym ex ey).
  all: destruct (ex ?= ey)%Z; simpl; try done.
Qed.

Lemma isFinite_not_nan (v : num) : isFinite v = true → not_nan v.
Proof. by destruct v. Qed.

Lemma num_ltb_key (x y : num) :
  num_ltb x y = true ↔ not_nan x ∧ not_nan y ∧ key_lt (key x) (key y).
Proof.
  unfold num_ltb, SFltb. split.
  - intros H.
    assert (not_nan x ∧ not_nan y) as [Hx Hy].
    { split; intros ->; [done|by destruct x as [| | |[]]]. }
    split; [done|]. split; [done|]. rewrite SFcompare_key in H by done.
    apply key_cmp_Lt. by destruct (key_cmp (key x) (key y)).
  - intros (Hx & Hy & Hlt). rewrite SFcompare_key by done.
    apply key_cmp_Lt in Hlt. by rewrite Hlt.
Qed.

Lemma num_leb_key (x y : num) :
  num_leb x y = true ↔ not_nan x ∧ not_nan y ∧ key_le (key x) (key y).
Proof.
  unfold num_leb, SFleb. split.
  - intros H.
    assert (not_nan x ∧ not_nan y) as [Hx Hy].
    { split; intros ->; [done|by destruct x as [| | |[]]]. }
    split; [done|]. split; [done|]. rewrite SFcompare_key in H by done.
    apply key_cmp_le. by destruct (key_cmp (key x) (key y)).
  - intros (Hx & Hy & Hle). rewrite SFcompare_key by done.
    apply key_cmp_le in Hle. by destruct (key_cmp (key x) (key y)).
Qed.

Lemma num_leb_refl (x : num) : not_nan x → num_leb x x = true.
Proof. intros Hx. apply num_leb_key. repeat split; try done. unfold key_le. lia. Qed.

Lemma num_ltb_irrefl (x : num) : num_ltb x x = false.
Proof.
  apply not_true_iff_false. rewrite num_ltb_key. unfold key_lt. intros (_ & _ & H). lia.
Qed.

Lemma num_ltb_leb (x y : num) : num_ltb x y = true → num_leb x y = true.
Proof.
  rewrite num_ltb_key, num_leb_key. unfold key_lt, key_le.
  intros (? & ? & H). repeat split; try done. lia.
Qed.

Lemma num_leb_trans (x y z : num) :
  num_leb x y = true → num_leb y z = true → num_leb x z = true.
Proof.
  rewrite !num_leb_key. unfold key_le.
  intros (? & ? & H1) (? & ? & H2). repeat split; try done. lia.
Qed.

Lemma num_leb_ltb_trans (x y z : num) :
  num_leb x y = true → num_ltb y z = true → num_ltb x z = true.
Proof.
  rewrite !num_leb_key, !num_ltb_key. unfold key_le, key_lt.
  intros (? & ? & H1) (? & ? & H2). repeat split; try done. lia.
Qed.

Lemma num_ltb_leb_trans (x y z : num) :
  num_ltb x y = true → num_leb y z = true → num_ltb x z = true.
Proof.
  rewrite !num_leb_key, !num_ltb_key. unfold key_le, key_lt.
  intros (? & ? & H1) (? & ? & H2). repeat split; try done. lia.
Qed.

(** Between two doubles that are not NaN, [a <= b] fails exactly when
    [a > b]. *)
Lemma num_leb_false (x y : num) :
  not_nan x → not_nan y → (num_leb x y = false ↔ num_gtb x y = true).
Proof.
  intros Hx Hy. unfold num_gtb.
  rewrite <-not_true_iff_false, num_leb_key, num_ltb_key.
  split.
  - intros H. repeat split; try done.
    assert (¬ key_le (key x) (key y)) as Hn by (intros ?; by apply H).
    unfold key_le in Hn. unfold key_lt.
    destruct (key x) as [[a1 a2] a3], (key y) as [[b1 b2] b3]. simpl in *. lia.
  - unfold key_le, key_lt. intros (_ & _ & H) (_ & _ & H').
    destruct (key x) as [[a1 a2] a3], (key y) as [[b1 b2] b3]. simpl in *. lia.
Qed.

Lemma num_gtb_not_leb (x y : num) : num_gtb x y = true → num_leb x y = false.
Proof.
  intros H. assert (not_nan y ∧ not_nan x) as [Hy Hx].
  { apply num_ltb_key in H. tauto. }
  by apply num_leb_false.
Qed.

Lemma num_ltb_false_leb (v w : num) :
  not_nan v → not_nan w → num_ltb v w = false → num_leb w v = true.
Proof.
  intros Hv Hw Hlt. destruct (num_leb w v) eqn:E; [done|].
  apply num_leb_false in E; [|done..]. unfold num_gtb in E.
  unfold num_ltb in Hlt. congruence.
Qed.

(** ** Sorting and the quantile candidates *)

Lemma insert_asc_perm v l : insert_asc v l ≡ₚ v :: l.
Proof.
  induction l as [|w l IH]; simpl; [done|].
  destruct (num_ltb v w); [done|]. rewrite IH. apply Permutation_swap.
Qed.

Lemma insert_asc_sorted v l :
  not_nan v → Forall not_nan l → Sorted num_le l → Sorted num_le (insert_asc v l).
Proof.
  intros Hv Hl Hs. induction Hs as [|w l Hs IH Hhd]; simpl; [by repeat constructor|].
  apply Forall_cons in Hl as [Hw Hl].
  destruct (num_ltb v w) eqn:Hlt.
  - constructor; [by constructor|]. constructor. by apply num_ltb_leb.
  - constructor; [by apply IH|].
    assert (num_le w v) as Hwv by (by apply num_ltb_false_leb).
    destruct Hhd as [|u l' Hu]; simpl; [by constructor|].
    destruct (num_ltb v u); by constructor.
Qed.

Lemma sort_asc_from acc l :
  Forall not_nan acc → Forall not_nan l → Sorted num_le acc →
  Sorted num_le (foldl (λ a v, insert_asc v a) acc l)
  ∧ foldl (λ a v, insert_asc v a) acc l ≡ₚ acc ++ l.
Proof.
  revert acc. induction l as [|v l IH]; intros acc Hacc Hl Hs; simpl.
  - by rewrite app_nil_r.
  - apply Forall_cons in Hl as [Hv Hl].
    destruct (IH (insert_asc v acc)) as [S1 P1]; [|done|by apply insert_asc_sorted|].
    { rewrite insert_asc_perm. by constructor. }
    split; [done|]. rewrite P1, insert_asc_perm.
    simpl. apply Permutation_middle.
Qed.

Lemma sort_asc_perm l : sort_asc l ≡ₚ l.
Proof.
  unfold sort_asc.
  assert (∀ acc, foldl (λ a v, insert_asc v a) acc l ≡ₚ acc ++ l) as H.
  { induction l as [|v l IH]; intros acc; simpl; [by rewrite app_nil_r|].
    rewrite IH, insert_asc_perm. simpl. apply Permutation_middle. }
  apply (H []).
Qed.

Lemma sort_asc_sorted l : Forall not_nan l → Sorted num_le (sort_asc l).
Proof. intros Hl. apply sort_asc_from; [constructor|done|constructor]. Qed.

Lemma sort_asc_length l : length (sort_asc l) = length l.
Proof. by rewrite sort_asc_perm. Qed.

Lemma quantile_index_lt (q m : nat) : (q < 10)%nat → (0 < m)%nat → (q * m / 10 < m)%nat.
Proof.
  intros Hq Hm. apply Nat.Div0.div_lt_upper_bound.
  by apply Nat.mul_lt_mono_pos_r.
Qed.

Lemma buildCART_eq X y depth maxDepth minLeaf :
  buildCART X y depth maxDepth minLeaf =
  if bool_decide (length y ≤ minLeaf ∨ maxDepth ≤ depth)%nat
  then Some (Leaf (leaf_value y) (length y) depth)
  else
    st ← search X y minLeaf;
    if num_leb (bestGain st) eps || bool_decide (bestFeat st < 0)%Z
    then Some (Leaf (leaf_value y) (length y) depth)
    else
      l ← buildCART (pick X (bestLeftIdx st)) (pick y (bestLeftIdx st))
                    (depth + 1) maxDepth minLeaf;
      r ← buildCART (pick X (bestRightIdx st)) (pick y (bestRightIdx st))
                    (depth + 1) maxDepth minLeaf;
      Some (Split (bestFeat st) (bestThr st) l r (length y) depth).
Proof.
  match goal with |- _ = ?r => remember r as rhs eqn:Hr end.
  rewrite buildCART_equation_1.
  destruct (inspect _) as [[] E]; rewrite E in Hr; subst rhs.
  - done.
  - done.
Qed.

Lemma omap_total {A B} (f : A → option B) (g : A → B) (l : list A) :
  Forall (λ x, f x = Some (g x)) l → omap f l = g <$> l.
Proof. induction 1 as [|x l Hx _ IH]; csimpl; [done|]. by rewrite Hx, IH. Qed.

Lemma finite_vals_elem (X : list (list num)) f v :
  v ∈ finite_vals X f ↔ isFinite v = true ∧ ∃ row, row ∈ X ∧ slot row f = v.
Proof.
  unfold finite_vals. rewrite list_elem_of_filter, list_elem_of_fmap. split.
  - intros [Hf (row & -> & Hin)]. split; [done|]. by exists row.
  - intros [Hf (row & Hin & <-)]. split; [done|]. by exists row.
Qed.

Lemma finite_vals_not_nan (X : list (list num)) f : Forall not_nan (finite_vals X f).
Proof.
  apply Forall_forall. intros v Hv. apply finite_vals_elem in Hv as [Hv _].
  by apply isFinite_not_nan.
Qed.

Lemma candidates_nil : candidates [] = [].
Proof. done. Qed.

Lemma candidates_pick (sorted : list num) :
  sorted ≠ [] →
  candidates sorted
  = (λ q : nat, default zero (sorted !! (q * length sorted / 10)%nat)) <$> seq 1 9.
Proof.
  intros Hne. apply omap_total, Forall_forall. intros q Hq.
  apply elem_of_seq in Hq.
  assert (q * length sorted / 10 < length sorted)%nat as Hlt.
  { apply quantile_index_lt; [lia|]. destruct sorted; simpl; [done|lia]. }
  cbv zeta. rewrite decide_True by done.
  destruct (lookup_lt_is_Some_2 _ _ Hlt) as [v ->]. done.
Qed.

Lemma candidates_length_le (sorted : list num) : (length (candidates sorted) ≤ 9)%nat.
Proof.
  destruct (decide (sorted = [])) as [->|Hne]; [simpl; lia|].
  rewrite candidates_pick by done. by rewrite length_fmap, length_seq.
Qed.

Lemma try_feature_thresholds X y minLeaf pv st f :
  try_feature X y minLeaf pv (Some st) f
  = foldl (try_threshold X y minLeaf pv f) (Some st) (thresholds X f).
Proof.
  unfold try_feature, thresholds. simpl. case_decide as E; [|done].
  by rewrite E.
Qed.

(** C2, amended.  For every feature slot [f] of a node with rows [X], the
    thresholds tried are read from the node's finite values of that slot
    sorted ascending with duplicates kept: the candidate for
    [q = 1, ..., 9] is the value at position [floor (q * m / 10)], [m] being
    the number of finite values.  A slot with no finite value yields no
    candidate; any other slot yields exactly nine, equal ones included, and
    the loop over thresholds evaluates every one of them. *)
Theorem quantile_candidates (X : list (list num)) (f : nat) :
  let vals := finite_vals X f in
  let sorted := sort_asc vals in
  (∀ v, v ∈ vals ↔ isFinite v = true ∧ ∃ row, row ∈ X ∧ slot row f = v)
  ∧ Sorted num_le sorted ∧ sorted ≡ₚ vals
  ∧ thresholds X f = candidates sorted
  ∧ (length (thresholds X f) ≤ 9)%nat
  ∧ (vals = [] → thresholds X f = [])
  ∧ (vals ≠ [] →
       length (thresholds X f) = 9%nat
       ∧ ∀ q : nat, (1 ≤ q ≤ 9)%nat →
           (q * length vals / 10 < length vals)%nat
           ∧ thresholds X f !! (q - 1)%nat = sorted !! (q * length vals / 10)%nat)
  ∧ (∀ y minLeaf pv st,
       try_feature X y minLeaf pv (Some st) f
       = foldl (try_threshold X y minLeaf pv f) (Some st) (thresholds X f)).
Proof.
  intros vals sorted.
  split; [apply finite_vals_elem|].
  split; [apply sort_asc_sorted, finite_vals_not_nan|].
  split; [apply sort_asc_perm|].
  split; [done|].
  split; [apply candidates_length_le|].
  split; [intros E; unfold thresholds; fold vals; by rewrite E|].
  split; [|intros; apply try_feature_thresholds].
  intros Hne.
  assert (sorted ≠ []) as Hs.
  { intros E. apply Hne. apply Permutation_nil_r. rewrite <-E.
    symmetry. apply sort_asc_perm. }
  unfold thresholds. fold vals. fold sorted.
  rewrite candidates_pick by done.
  split; [by rewrite length_fmap, length_seq|].
  intros q Hq.
  assert (length sorted = length vals) as Hlen by apply sort_asc_length.
  assert (q * length vals / 10 < length vals)%nat as Hlt.
  { apply quantile_index_lt; [lia|]. destruct vals; simpl; [done|lia]. }
  split; [done|].
  rewrite list_lookup_fmap, lookup_seq_lt by lia.
  replace (1 + (q - 1))%nat with q by lia.
  rewrite <-Hlen in Hlt.
  destruct (lookup_lt_is_Some_2 _ _ Hlt) as [v Hv]. rewrite Hlen in Hv.
  rewrite Hv.
  change (Some (default zero (sorted !! (q * length sorted / 10)%nat)) = Some v).
  by rewrite Hlen, Hv.
Qed.

(** C2 as stated fails: with the value 1 once and the value 2 nine times,
    the nine candidates are all 2, whereas the quantile positions of the
    distinct sorted values [1; 2] give the candidates 1 and 2; and the
    candidate list holds repeated thresholds, each evaluated in turn. *)
Lemma quantile_candidates_not_distinct :
  thresholds Samples.X_dup 0 = replicate 9 (Samples.qz 2)
  ∧ quantiles_of_distinct (finite_vals Samples.X_dup 0) = [Samples.qz 1; Samples.qz 2]
  ∧ thresholds Samples.X_dup 0 ≠ quantiles_of_distinct (finite_vals Samples.X_dup 0)
  ∧ ¬ NoDup (thresholds Samples.X_dup 0).
Proof.
  repeat split; compute_done.
Qed.

(** ** The partition loop *)

Lemma pick_app {A} (a : list A) (i j : list nat) : pick a (i ++ j) = pick a i ++ pick a j.
Proof. apply omap_app. Qed.

Lemma pick_fmap {A B} (g : A → B) (a : list A) (idx : list nat) :
  pick (g <$> a) idx = g <$> pick a idx.
Proof.
  unfold pick. induction idx as [|i idx IH]; [done|]. csimpl.
  rewrite list_lookup_fmap. destruct (a !! i); csimpl; by rewrite IH.
Qed.

Lemma omap_ext_in {A B} (f g : A → option B) (l : list A) :
  (∀ x, x ∈ l → f x = g x) → omap f l = omap g l.
Proof.
  induction l as [|x l IH]; intros E; [done|]. csimpl.
  rewrite (E x) by left. rewrite IH; [done|]. intros; apply E. by right.
Qed.

Lemma filter_ext_in {A} (P Q : A → Prop)
    `{!∀ x, Decision (P x), !∀ x, Decision (Q x)} (l : list A) :
  (∀ x, x ∈ l → P x ↔ Q x) → filter P l = filter Q l.
Proof.
  induction l as [|x l IH]; intros E; [done|].
  assert (filter P l = filter Q l) as IH' by (apply IH; intros; apply E; by right).
  destruct (decide (P x)) as [Hp|Hp].
  - rewrite !filter_cons_True; [by rewrite IH'|by apply E; [left|]|done].
  - rewrite !filter_cons_False; [done|by rewrite <-E by left|done].
Qed.

Lemma partition_prefix X y f thr (k : nat) :
  (k ≤ length y)%nat → (k ≤ length X)%nat →
  foldl (partition_step X y f thr) (Some (Parts [] [] [] [])) (seq 0 k)
  = Some (Parts (pick y (filter (λ i, row_left X f thr i = true) (seq 0 k)))
                (pick y (filter (λ i, row_left X f thr i = false) (seq 0 k)))
                (filter (λ i, row_left X f thr i = true) (seq 0 k))
                (filter (λ i, row_left X f thr i = false) (seq 0 k))).
Proof.
  induction k as [|k IH]; intros Hy HX; [done|].
  rewrite seq_S, foldl_snoc, IH by lia. simpl.
  destruct (lookup_lt_is_Some_2 X k) as [row Hrow]; [lia|].
  destruct (lookup_lt_is_Some_2 y k) as [yi Hyi]; [lia|].
  unfold partition_step. simpl. rewrite Hrow, Hyi. simpl.
  rewrite !filter_app, !pick_app.
  assert (row_left X f thr k = num_leb (slot row f) thr) as Hk
    by (unfold row_left; by rewrite Hrow).
  destruct (num_leb (slot row f) thr) eqn:Hle.
  - rewrite (filter_cons_True _ k) by done.
    rewrite (filter_cons_False (λ i, row_left X f thr i = false) k) by (rewrite Hk; done).
    rewrite !filter_nil, !app_nil_r. unfold pick at 2. simpl. by rewrite Hyi.
  - rewrite (filter_cons_True (λ i, row_left X f thr i = false) k) by done.
    rewrite (filter_cons_False _ k) by (rewrite Hk; done).
    rewrite !filter_nil, !app_nil_r. unfold pick at 4. simpl. by rewrite Hyi.
Qed.

Lemma partition_rows_total X y f thr :
  (length y ≤ length X)%nat → partition_rows X y f thr = Some (split_at X y f thr).
Proof. intros HX. unfold partition_rows. by rewrite partition_prefix. Qed.

(** Picking by the indices that pass a test is filtering by that test. *)
Lemma pick_filter_seq {A} (P : A → bool) (b : bool) (l : list A) :
  pick l (filter (λ i, match l !! i with Some a => P a | None => false end = b)
                 (seq 0 (length l)))
  = filter (λ a, P a = b) l.
Proof.
  induction l as [|a l IH] using rev_ind; [done|].
  rewrite length_app. simpl. rewrite Nat.add_1_r, seq_S, !filter_app, pick_app.
  f_equal.
  - rewrite <-IH. unfold pick.
    rewrite (filter_ext_in _
      (λ i, match l !! i with Some a0 => P a0 | None => false end = b)).
    + apply omap_ext_in. intros i Hi.
      apply list_elem_of_filter in Hi as [_ Hi]. apply elem_of_seq in Hi.
      apply lookup_app_l. lia.
    + intros i Hi. apply elem_of_seq in Hi.
      rewrite lookup_app_l by lia. done.
  - simpl.
    assert ((l ++ [a]) !! length l = Some a) as Ha by apply list_lookup_middle, eq_refl.
    destruct (decide (P a = b)) as [E|E].
    + rewrite (filter_cons_True _ (length l)) by (by rewrite Ha).
      rewrite (filter_cons_True _ a) by done.
      rewrite !filter_nil. unfold pick. simpl. by rewrite Ha.
    + rewrite (filter_cons_False _ (length l)) by (by rewrite Ha).
      rewrite (filter_cons_False _ a) by done.
      by rewrite !filter_nil.
Qed.

Lemma row_left_examples (ex : list example) f thr i :
  row_left ex.*1 f thr i
  = match ex !! i with Some e => num_leb (slot e.1 f) thr | None => false end.
Proof. unfold row_left. rewrite list_lookup_fmap. destruct (ex !! i); reflexivity. Qed.

Lemma pick_examples (ex : list example) f thr (b : bool) :
  pick ex (filter (λ i, row_left ex.*1 f thr i = b) (seq 0 (length ex.*2)))
  = filter (λ e, num_leb (slot e.1 f) thr = b) ex.
Proof.
  rewrite length_fmap.
  rewrite <-(pick_filter_seq (λ e : example, num_leb (slot e.1 f) thr) b ex).
  f_equal. apply list_filter_iff. intros i. by rewrite row_left_examples.
Qed.

(** On a list of examples the partition loop returns the labels and the
    row indices of the examples that pass the test and of those that do
    not. *)
Lemma split_at_examples (ex : list example) f thr :
  let p := split_at ex.*1 ex.*2 f thr in
  pL p = (left_of f thr ex).*2 ∧ pR p = (not_left_of f thr ex).*2
  ∧ pick ex.*1 (pLi p) = (left_of f thr ex).*1
  ∧ pick ex.*2 (pLi p) = (left_of f thr ex).*2
  ∧ pick ex.*1 (pRi p) = (not_left_of f thr ex).*1
  ∧ pick ex.*2 (pRi p) = (not_left_of f thr ex).*2.
Proof.
  unfold split_at, left_of, not_left_of. simpl.
  rewrite !pick_fmap, !pick_examples. done.
Qed.

Lemma partition_examples (ex : list example) f thr :
  partition_rows ex.*1 ex.*2 f thr = Some (split_at ex.*1 ex.*2 f thr).
Proof. apply partition_rows_total. by rewrite !length_fmap. Qed.

(** ** The split search as one pass over the candidates *)

Lemma try_threshold_consider X y minLeaf f st thr :
  (length y ≤ length X)%nat →
  try_threshold X y minLeaf (variance y) f (Some st) thr
  = Some (consider X y minLeaf st (f, thr)).
Proof.
  intros HX. unfold try_threshold, consider, valid_gain. simpl.
  rewrite partition_rows_total by done. simpl.
  case_decide; [done|]. by destruct (num_gtb _ _).
Qed.

Lemma thresholds_consider X y minLeaf f st (thrs : list num) :
  (length y ≤ length X)%nat →
  foldl (try_threshold X y minLeaf (variance y) f) (Some st) thrs
  = Some (foldl (consider X y minLeaf) st ((λ thr, (f, thr)) <$> thrs)).
Proof.
  intros HX. revert st. induction thrs as [|thr thrs IH]; intros st; [done|].
  rewrite fmap_cons. cbn [foldl]. by rewrite try_threshold_consider, IH.
Qed.

Lemma features_consider X y minLeaf st (fs : list nat) :
  (length y ≤ length X)%nat →
  foldl (try_feature X y minLeaf (variance y)) (Some st) fs
  = Some (foldl (consider X y minLeaf) st
            (f ← fs; (λ thr, (f, thr)) <$> thresholds X f)).
Proof.
  intros HX. revert st. induction fs as [|f fs IH]; intros st; [done|].
  cbn [foldl mbind list_bind]. rewrite try_feature_thresholds, thresholds_consider by done.
  rewrite IH. by rewrite foldl_app.
Qed.

Lemma search_flat X y minLeaf :
  (length y ≤ length X)%nat →
  search X y minLeaf = Some (foldl (consider X y minLeaf) best_init (all_candidates X)).
Proof. intros HX. unfold search, all_candidates. by apply features_consider. Qed.

Lemma num_leb_not_nan_r (a b : num) : num_leb a b = true → not_nan b.
Proof. intros H. apply num_leb_key in H. tauto. Qed.

Lemma num_gtb_false_mono (g b1 b2 : num) :
  num_gtb g b1 = false → num_leb b1 b2 = true → num_gtb g b2 = false.
Proof.
  intros Hg Hle. destruct (num_gtb g b2) eqn:E; [|done].
  assert (num_ltb b1 g = true) as H by (by eapply num_leb_ltb_trans).
  unfold num_gtb, num_ltb in *. congruence.
Qed.

Lemma num_leb_false_above (b1 b2 g : num) :
  num_gtb g b1 = false → num_gtb b2 b1 = true → num_leb b2 g = false.
Proof.
  intros Hg Hlt. destruct (num_leb b2 g) eqn:E; [|done].
  assert (num_ltb b1 g = true) as H by (by eapply num_ltb_leb_trans).
  unfold num_gtb, num_ltb in *. congruence.
Qed.

(** The running best after a pass: no candidate's gain exceeds it, and it
    is either the initial one or the earliest candidate reaching the top
    gain. *)
Lemma consider_pass X y minLeaf (cs : list (nat * num)) (st : best) :
  not_nan (bestGain st) →
  let st' := foldl (consider X y minLeaf) st cs in
  num_leb (bestGain st) (bestGain st') = true
  ∧ (∀ c g, c ∈ cs → valid_gain X y minLeaf c = Some g →
       num_gtb g (bestGain st') = false)
  ∧ (st' = st
     ∨ ∃ i c, cs !! i = Some c
         ∧ valid_gain X y minLeaf c = Some (bestGain st')
         ∧ num_gtb (bestGain st') (bestGain st) = true
         ∧ st' = Best (bestGain st') (Z.of_nat c.1) c.2
                      (pLi (split_at X y c.1 c.2)) (pRi (split_at X y c.1 c.2))
         ∧ ∀ j c' g', (j < i)%nat → cs !! j = Some c' →
             valid_gain X y minLeaf c' = Some g' →
             num_leb (bestGain st') g' = false).
Proof.
  revert st. induction cs as [|c cs IH]; intros st Hst; simpl.
  - split; [by apply num_leb_refl|]. split; [|by left].
    intros c g Hc. by apply elem_of_nil in Hc.
  - set (st1 := consider X y minLeaf st c) in *.
    assert (num_leb (bestGain st) (bestGain st1) = true
            ∧ (∀ g, valid_gain X y minLeaf c = Some g →
                 num_gtb g (bestGain st1) = false)
            ∧ (st1 = st
               ∨ valid_gain X y minLeaf c = Some (bestGain st1)
                 ∧ num_gtb (bestGain st1) (bestGain st) = true
                 ∧ st1 = Best (bestGain st1) (Z.of_nat c.1) c.2
                           (pLi (split_at X y c.1 c.2)) (pRi (split_at X y c.1 c.2))))
      as (H1 & H2 & H3).
    { unfold st1, consider. destruct (valid_gain X y minLeaf c) as [g|].
      - destruct (num_gtb g (bestGain st)) eqn:Hlt; simpl.
        + split; [by apply num_ltb_leb|]. split; [|by right].
          intros g' [= ->]. apply num_ltb_irrefl.
        + split; [by apply num_leb_refl|]. split; [|by left].
          by intros g' [= ->].
      - split; [by apply num_leb_refl|]. split; [done|by left]. }
    destruct (IH st1) as (Hmono & Hmax & Hsel); [by eapply num_leb_not_nan_r|].
    set (st' := foldl (consider X y minLeaf) st1 cs) in *.
    split; [by eapply num_leb_trans|]. split.
    + intros c0 g Hc Hg. apply elem_of_cons in Hc as [->|Hc].
      * eapply num_gtb_false_mono; [by apply H2|done].
      * by eapply Hmax.
    + destruct Hsel as [E|(i & c0 & Hi & Hg & Hlt & Hst' & Hbefore)].
      * destruct H3 as [E1|(Hg & Hlt & Hst1)].
        -- left. by rewrite E.
        -- right. exists 0%nat, c. rewrite E.
           split; [done|]. split; [done|]. split; [done|]. split; [done|].
           intros j ? ? Hj. lia.
      * right. exists (S i), c0.
        split; [done|]. split; [done|].
        split; [unfold num_gtb in *; by eapply num_leb_ltb_trans|]. split; [done|].
        intros [|j] c' g' Hj Hc' Hg'.
        -- simpl in Hc'. injection Hc' as <-.
           eapply num_leb_false_above; [by apply H2|done].
        -- simpl in Hc'. eapply Hbefore; [|done..]. lia.
Qed.

(** ** Variance and gain *)

Lemma variance_pop_variance (ys : list num) : variance ys = pop_variance ys.
Proof.
  unfold variance, pop_variance. destruct ys as [|v ys]; [done|].
  rewrite decide_False by done.
  unfold mean, sum. by rewrite foldl_fmap.
Qed.

Lemma gain_of_reduction (ys yL yR : list num) :
  gain_of (variance ys) (length ys) yL yR = variance_reduction ys yL yR.
Proof. unfold gain_of, variance_reduction. by rewrite !variance_pop_variance. Qed.

Lemma finite_gtb_not_leb (v thr : num) :
  isFinite v = true → not_nan thr →
  (num_leb v thr = false ↔ num_gtb v thr = true).
Proof. intros Hv Hthr. apply num_leb_false; [by apply isFinite_not_nan|done]. Qed.

Lemma not_left_is_right (ex : list example) f thr :
  not_nan thr →
  (∀ e, e ∈ ex → isFinite (slot e.1 f) = true) →
  not_left_of f thr ex = right_of f thr ex.
Proof.
  intros Hthr Hfin. apply filter_ext_in. intros e He.
  by apply finite_gtb_not_leb; [apply Hfin|].
Qed.

Lemma left_not_left_perm (ex : list example) f thr :
  left_of f thr ex ++ not_left_of f thr ex ≡ₚ ex.
Proof.
  unfold left_of, not_left_of.
  rewrite <-(filter_app_complement (λ e : example, num_leb (slot e.1 f) thr = true) ex) at 3.
  f_equiv. apply reflexive_eq, list_filter_iff. intros e.
  by destruct (num_leb (slot e.1 f) thr).
Qed.

(** C5.  At a node holding the examples [ex], whose values at slot [f] are
    finite, the partition loop for a threshold [thr] (a number, not NaN)
    puts the examples with value [<= thr] on the left and those with value
    [> thr] on the right; the candidate is skipped when either side has
    fewer than [minLeaf] rows; otherwise its gain is
    [parentVar − (|left|/n)·variance(left) − (|right|/n)·variance(right)],
    with [variance] the population variance and [variance [] = 0]. *)
Theorem partition_and_gain (ex : list example) (f : nat) (thr : num)
    (minLeaf : nat) (parentVar : num) (st : best) :
  not_nan thr →
  (∀ e, e ∈ ex → isFinite (slot e.1 f) = true) →
  let lft := left_of f thr ex in
  let rgt := right_of f thr ex in
  let p := split_at ex.*1 ex.*2 f thr in
  let gain :=
    fsub (fsub parentVar
               (fmul (fdiv (num_of_nat (length lft)) (num_of_nat (length ex)))
                     (pop_variance lft.*2)))
         (fmul (fdiv (num_of_nat (length rgt)) (num_of_nat (length ex)))
               (pop_variance rgt.*2)) in
  partition_rows ex.*1 ex.*2 f thr = Some p
  ∧ pL p = lft.*2 ∧ pR p = rgt.*2
  ∧ pick ex.*1 (pLi p) = lft.*1 ∧ pick ex.*1 (pRi p) = rgt.*1
  ∧ lft ++ rgt ≡ₚ ex
  ∧ try_threshold ex.*1 ex.*2 minLeaf parentVar f (Some st) thr
    = Some (if decide (length lft < minLeaf ∨ length rgt < minLeaf)%nat then st
            else if num_gtb gain (bestGain st)
                 then Best gain (Z.of_nat f) thr (pLi p) (pRi p)
                 else st)
  ∧ (∀ ys, variance ys = pop_variance ys)
  ∧ variance [] = zero.
Proof.
  intros Hthr Hfin lft rgt p gain.
  destruct (split_at_examples ex f thr) as (HL & HR & HXL & _ & HXR & _).
  fold p in HL, HR, HXL, HXR.
  rewrite (not_left_is_right ex f thr Hthr Hfin) in HR, HXR. fold rgt in HR, HXR.
  fold lft in HL, HXL.
  split; [apply partition_examples|].
  split; [done|]. split; [done|]. split; [done|]. split; [done|].
  split.
  { unfold lft, rgt. rewrite <-(not_left_is_right ex f thr Hthr Hfin).
    apply left_not_left_perm. }
  split; [|split; [apply variance_pop_variance|done]].
  unfold try_threshold. cbn [mbind option_bind].
  rewrite partition_examples. cbn [mbind option_bind]. fold p.
  unfold gain_of. rewrite !variance_pop_variance, HL, HR, !length_fmap.
  fold gain. case_decide; [done|]. by destruct (num_gtb gain (bestGain st)).
Qed.

(** ** The search result *)

Lemma valid_gain_sizes (ex : list example) minLeaf f thr g :
  valid_gain ex.*1 ex.*2 minLeaf (f, thr) = Some g →
  (minLeaf ≤ length (left_of f thr ex))%nat
  ∧ (minLeaf ≤ length (not_left_of f thr ex))%nat
  ∧ g = gain_of (variance ex.*2) (length ex)
                (left_of f thr ex).*2 (not_left_of f thr ex).*2.
Proof.
  unfold valid_gain. cbn [fst snd].
  destruct (split_at_examples ex f thr) as (HL & HR & _).
  cbv zeta in HL, HR. rewrite HL, HR, !length_fmap. case_decide as Hs; [done|].
  intros [= <-]. repeat split; lia.
Qed.

(** What the search returns on a list of examples. *)
Lemma search_examples (ex : list example) (minLeaf : nat) :
  ∃ st, search ex.*1 ex.*2 minLeaf = Some st
    ∧ num_leb zero (bestGain st) = true
    ∧ (∀ c g, c ∈ all_candidates ex.*1 →
          valid_gain ex.*1 ex.*2 minLeaf c = Some g →
          num_gtb g (bestGain st) = false)
    ∧ (st = best_init
       ∨ ∃ i f thr, all_candidates ex.*1 !! i = Some (f, thr)
           ∧ valid_gain ex.*1 ex.*2 minLeaf (f, thr) = Some (bestGain st)
           ∧ num_gtb (bestGain st) zero = true
           ∧ st = Best (bestGain st) (Z.of_nat f) thr
                       (pLi (split_at ex.*1 ex.*2 f thr))
                       (pRi (split_at ex.*1 ex.*2 f thr))
           ∧ ∀ j c' g', (j < i)%nat → all_candidates ex.*1 !! j = Some c' →
               valid_gain ex.*1 ex.*2 minLeaf c' = Some g' →
               num_leb (bestGain st) g' = false).
Proof.
  eexists. split; [apply search_flat; by rewrite !length_fmap|].
  destruct (consider_pass ex.*1 ex.*2 minLeaf (all_candidates ex.*1) best_init)
    as (H0 & Hmax & Hsel); [done|].
  split; [done|]. split; [done|].
  destruct Hsel as [E|(i & [f thr] & Hi & Hg & Hlt & Hst & Hbefore)]; [by left|].
  right. by exists i, f, thr.
Qed.

(** ** Induction over the trees built from a list of examples *)

Section build_ind.
Variables maxDepth minLeaf : nat.
Variable P : list example → nat → CartNode → Prop.

Hypothesis P_leaf : ∀ ex depth st,
  search ex.*1 ex.*2 minLeaf = Some st →
  (length ex ≤ minLeaf)%nat ∨ (maxDepth ≤ depth)%nat
    ∨ num_leb (bestGain st) eps = true →
  P ex depth (Leaf (leaf_value ex.*2) (length ex) depth).

Hypothesis P_split : ∀ ex depth st i f thr l r,
  (minLeaf < length ex)%nat → (depth < maxDepth)%nat →
  search ex.*1 ex.*2 minLeaf = Some st →
  all_candidates ex.*1 !! i = Some (f, thr) →
  valid_gain ex.*1 ex.*2 minLeaf (f, thr) = Some (bestGain st) →
  num_gtb (bestGain st) eps = true →
  bestFeat st = Z.of_nat f → bestThr st = thr →
  buildCART (left_of f thr ex).*1 (left_of f thr ex).*2
            (depth + 1) maxDepth minLeaf = Some l →
  buildCART (not_left_of f thr ex).*1 (not_left_of f thr ex).*2
            (depth + 1) maxDepth minLeaf = Some r →
  P (left_of f thr ex) (depth + 1) l →
  P (not_left_of f thr ex) (depth + 1) r →
  P ex depth (Split (Z.of_nat f) thr l r (length ex) depth).

Lemma buildCART_examples_fuel (k : nat) : ∀ (ex : list example) (depth : nat),
  (maxDepth - depth ≤ k)%nat →
  ∃ t, buildCART ex.*1 ex.*2 depth maxDepth minLeaf = Some t ∧ P ex depth t.
Proof.
  induction k as [|k IH]; intros ex depth Hk;
    destruct (search_examples ex minLeaf) as (st & Hsearch & Hge0 & Hmax & Hsel);
    rewrite buildCART_eq, length_fmap.
  - rewrite bool_decide_eq_true_2 by lia.
    eexists. split; [done|]. eapply P_leaf; [done|]. right; left; lia.
  - case_bool_decide as Hpre.
    { eexists. split; [done|]. eapply P_leaf; [done|]. tauto. }
    rewrite Hsearch. cbn [mbind option_bind].
    destruct (num_leb (bestGain st) eps || bool_decide (bestFeat st < 0)%Z) eqn:Hpost.
    { eexists. split; [done|]. eapply P_leaf; [done|].
      apply orb_true_iff in Hpost as [Hle|Hneg]; [tauto|].
      apply bool_decide_eq_true in Hneg.
      destruct Hsel as [E|(i & f & thr & _ & _ & _ & Hst & _)].
      - right; right. rewrite E. done.
      - rewrite Hst in Hneg. simpl in Hneg. lia. }
    apply orb_false_iff in Hpost as [Hgain Hfeat].
    apply bool_decide_eq_false in Hfeat.
    destruct Hsel as [E|(i & f & thr & Hi & Hg & Hpos & Hst & Hbefore)].
    { exfalso. apply Hfeat. rewrite E. simpl. lia. }
    assert (num_gtb (bestGain st) eps = true) as Heps.
    { apply num_leb_false; [by eapply num_leb_not_nan_r|done|done]. }
    rewrite Hst. cbn [bestLeftIdx bestRightIdx bestFeat bestThr].
    destruct (split_at_examples ex f thr) as (_ & _ & HXL & HyL & HXR & HyR).
    cbv zeta in HXL, HyL, HXR, HyR. rewrite HXL, HyL, HXR, HyR.
    destruct (IH (left_of f thr ex) (depth + 1)%nat) as (l & Hl & Pl); [lia|].
    destruct (IH (not_left_of f thr ex) (depth + 1)%nat) as (r & Hr & Pr); [lia|].
    rewrite Hl, Hr. cbn [mbind option_bind].
    eexists. split; [done|].
    eapply P_split; try done; try lia.
    all: by rewrite Hst.
Qed.

Lemma buildCART_examples (ex : list example) (depth : nat) :
  ∃ t, buildCART ex.*1 ex.*2 depth maxDepth minLeaf = Some t ∧ P ex depth t.
Proof. by apply (buildCART_examples_fuel (maxDepth - depth)). Qed.
End build_ind.

(** On a list of examples the build never throws. *)
Lemma buildCART_total (ex : list example) (depth maxDepth minLeaf : nat) :
  ∃ t, buildCART ex.*1 ex.*2 depth maxDepth minLeaf = Some t.
Proof.
  destruct (buildCART_examples maxDepth minLeaf (λ _ _ _, True))
    with (ex := ex) (depth := depth) as (t & Ht & _); [done..|].
  by exists t.
Qed.

(** Arrays [X] and [y] of equal length are a list of examples. *)
Lemma arrays_as_examples (X : list (list num)) (y : list num) :
  length X = length y → (zip X y).*1 = X ∧ (zip X y).*2 = y.
Proof. intros E. split; [apply fst_zip|apply snd_zip]; lia. Qed.

(** ** The stopping rule and the leaf values *)

Import SplitSpec.

Lemma slotZ_of_nat (x : list num) (f : nat) : slotZ x (Z.of_nat f) = slot x f.
Proof. unfold slotZ. rewrite decide_False by lia. by rewrite Nat2Z.id. Qed.

Lemma reach_left_of_nat f thr ex : reach_left (Z.of_nat f) thr ex = left_of f thr ex.
Proof.
  apply list_filter_iff. intros e. by rewrite slotZ_of_nat.
Qed.

Lemma reach_right_of_nat f thr ex : reach_right (Z.of_nat f) thr ex = not_left_of f thr ex.
Proof.
  apply list_filter_iff. intros e. by rewrite slotZ_of_nat.
Qed.

Lemma leaf_value_mean (ys : list num) : ys ≠ [] → leaf_value ys = mean ys.
Proof.
  intros Hne. unfold leaf_value, mean. f_equal. f_equal.
  destruct ys; simpl; [done|lia].
Qed.

Lemma leaf_value_nil : leaf_value [] = zero.
Proof. done. Qed.

Lemma buildCART_precheck X y depth maxDepth minLeaf :
  (length y ≤ minLeaf)%nat ∨ (maxDepth ≤ depth)%nat →
  buildCART X y depth maxDepth minLeaf = Some (Leaf (leaf_value y) (length y) depth).
Proof. intros Hpre. rewrite buildCART_eq. by rewrite bool_decide_eq_true_2. Qed.

Lemma all_candidates_elem X f thr :
  (f, thr) ∈ all_candidates X ↔ (f < nFeat_of X)%nat ∧ thr ∈ thresholds X f.
Proof.
  unfold all_candidates. rewrite list_elem_of_bind. split.
  - intros (f' & Hin & Hf'). apply list_elem_of_fmap in Hin as (thr' & [= -> ->] & Hthr).
    apply elem_of_seq in Hf'. split; [lia|done].
  - intros [Hf Hthr]. exists f. split.
    + apply list_elem_of_fmap. by exists thr.
    + apply elem_of_seq. lia.
Qed.

(** Finite rows and the candidates drawn from them. *)

Lemma finite_rows_filter w (ex : list example) (Q : example → Prop)
    `{!∀ e, Decision (Q e)} :
  finite_rows w ex → finite_rows w (filter Q ex).
Proof.
  unfold finite_rows. rewrite !Forall_forall. intros Hall e He.
  apply list_elem_of_filter in He as [_ He]. by apply Hall.
Qed.

Lemma finite_rows_slot w (ex : list example) e f :
  finite_rows w ex → e ∈ ex → (f < w)%nat → isFinite (slot e.1 f) = true.
Proof.
  unfold finite_rows. rewrite Forall_forall. intros H He Hf.
  destruct (H e He) as [Hlen Hfin].
  destruct (lookup_lt_is_Some_2 e.1 f) as [v Hv]; [lia|].
  unfold slot. rewrite Hv. simpl.
  rewrite Forall_forall in Hfin. apply Hfin. by eapply list_elem_of_lookup_2.
Qed.

Lemma finite_rows_nFeat w (ex : list example) :
  finite_rows w ex → ex ≠ [] → nFeat_of ex.*1 = w.
Proof.
  intros H Hne. destruct ex as [|e ex]; [done|].
  apply Forall_cons in H as [[Hlen _] _]. done.
Qed.

Lemma candidate_feature_lt X i f thr :
  all_candidates X !! i = Some (f, thr) → (f < nFeat_of X)%nat.
Proof.
  intros Hi. apply list_elem_of_lookup_2 in Hi.
  by apply all_candidates_elem in Hi as [? _].
Qed.

Lemma candidates_elem (sorted : list num) v : v ∈ candidates sorted → v ∈ sorted.
Proof.
  unfold candidates. intros Hv. apply list_elem_of_omap in Hv as (q & _ & Hq).
  cbv zeta in Hq. case_decide; [|done]. by eapply list_elem_of_lookup_2.
Qed.

Lemma thresholds_elem X f thr : thr ∈ thresholds X f → thr ∈ finite_vals X f.
Proof.
  unfold thresholds. intros Hthr. apply candidates_elem in Hthr.
  by rewrite sort_asc_perm in Hthr.
Qed.

(** Every threshold tried is a finite number. *)
Lemma candidate_threshold_finite X f thr :
  (f, thr) ∈ all_candidates X → isFinite thr = true.
Proof.
  intros Hc. apply all_candidates_elem in Hc as [_ Hthr].
  apply thresholds_elem, finite_vals_elem in Hthr as [Hfin _]. done.
Qed.

(** The gain the code computes for a candidate is the variance reduction
    of the specification, and it computes one exactly for the admissible
    candidates. *)
Lemma valid_gain_reduction (ex : list example) minLeaf (c : nat * num) g :
  valid_gain ex.*1 ex.*2 minLeaf c = Some g
  ↔ admissible minLeaf ex c ∧ g = reduction_at ex c.
Proof.
  destruct c as [f thr]. unfold admissible, reduction_at. cbn [fst snd]. split.
  - intros Hg. apply valid_gain_sizes in Hg as (HL & HR & ->).
    split; [done|]. rewrite <-(length_fmap snd ex). apply gain_of_reduction.
  - intros [[HL HR] ->]. unfold valid_gain. cbn [fst snd].
    destruct (split_at_examples ex f thr) as (EL & ER & _).
    cbv zeta in EL, ER. rewrite EL, ER, !length_fmap.
    rewrite decide_False by lia. f_equal.
    rewrite <-(length_fmap snd ex) at 1. apply gain_of_reduction.
Qed.

Lemma eps_pos : num_gtb eps zero = true.
Proof. done. Qed.

(** [eps] is the double nearest to [10^-12]: it lies within half a unit in
    the last place, [2^-93], of it. *)
Lemma eps_nearest :
  (Q2Qc (1 # 1000000000000) - Q2Qc (1 # 9903520314283042199192993792)
     < rational_of eps)%Qc
  ∧ (rational_of eps
     < Q2Qc (1 # 1000000000000) + Q2Qc (1 # 9903520314283042199192993792))%Qc.
Proof. split; compute_done. Qed.

(** C4, amended.  The tree built from the examples [ex] at [depth] is a
    leaf exactly when [|ex| <= minLeaf], or [depth >= maxDepth], or the
    best gain found by the split search is at most [1e-12]; and the best
    gain is at most [1e-12] exactly when no admissible candidate achieves a
    variance reduction above [1e-12], the threshold being the double
    nearest to [10^-12]; a candidate's right side is the rows the test
    [<=] rejects, which for finite feature values are the rows with value
    [>] the threshold.  The two size and depth tests are decided before the
    search: when one holds the result is the leaf whatever the feature rows
    are.  Every leaf of the tree carries the mean of the labels of the
    examples that reach it as double arithmetic computes it: the labels
    added in order, the sum divided by their number. *)
Theorem stopping_rule (ex : list example) (depth maxDepth minLeaf : nat) :
  ∃ t st,
    buildCART ex.*1 ex.*2 depth maxDepth minLeaf = Some t
    ∧ search ex.*1 ex.*2 minLeaf = Some st
    ∧ (is_leaf t = true
       ↔ (length ex ≤ minLeaf)%nat ∨ (maxDepth ≤ depth)%nat
         ∨ num_leb (bestGain st) eps = true)
    ∧ (num_leb (bestGain st) eps = true
       ↔ ∀ c, c ∈ all_candidates ex.*1 → admissible minLeaf ex c →
           num_gtb (reduction_at ex c) eps = false)
    ∧ (∀ c, c ∈ all_candidates ex.*1 → admissible minLeaf ex c →
         num_gtb (reduction_at ex c) (bestGain st) = false)
    ∧ (∀ w c, finite_rows w ex → c ∈ all_candidates ex.*1 →
         not_left_of c.1 c.2 ex = right_of c.1 c.2 ex)
    ∧ ((Q2Qc (1 # 1000000000000) - Q2Qc (1 # 9903520314283042199192993792)
          < rational_of eps)%Qc
       ∧ (rational_of eps
          < Q2Qc (1 # 1000000000000) + Q2Qc (1 # 9903520314283042199192993792))%Qc)
    ∧ (∀ X y, (length y ≤ minLeaf)%nat ∨ (maxDepth ≤ depth)%nat →
         buildCART X y depth maxDepth minLeaf
         = Some (Leaf (leaf_value y) (length y) depth))
    ∧ leaf_means ex t.
Proof.
  destruct (search_examples ex minLeaf) as (st & Hsearch & Hge0 & Hmax & Hsel).
  destruct (buildCART_examples maxDepth minLeaf
    (λ ex depth t, ∀ st, search ex.*1 ex.*2 minLeaf = Some st →
       (is_leaf t = true
        ↔ (length ex ≤ minLeaf)%nat ∨ (maxDepth ≤ depth)%nat
          ∨ num_leb (bestGain st) eps = true)
       ∧ leaf_means ex t)) with (ex := ex) (depth := depth) as (t & Ht & HP).
  - intros ex0 d st0 Hs0 Hstop st1 Hs1. rewrite Hs0 in Hs1. injection Hs1 as <-.
    split; [done|]. simpl. destruct ex0 as [|e ex0]; [done|].
    by apply leaf_value_mean.
  - intros ex0 d st0 i f thr l r Hn Hd Hs0 Hi Hg Heps Hf Hthr Hl Hr Pl Pr st1 Hs1.
    rewrite Hs0 in Hs1. injection Hs1 as <-. split.
    + simpl. split; [done|]. intros [?|[?|Hle]]; [lia..|].
      apply num_gtb_not_leb in Heps. congruence.
    + simpl. rewrite reach_left_of_nat, reach_right_of_nat.
      split.
      * destruct (search_examples (left_of f thr ex0) minLeaf) as (s & Hs & _).
        by apply (Pl s).
      * destruct (search_examples (not_left_of f thr ex0) minLeaf) as (s & Hs & _).
        by apply (Pr s).
  - exists t, st. destruct (HP st Hsearch) as [Hiff Hmeans].
    assert (∀ c, c ∈ all_candidates ex.*1 → admissible minLeaf ex c →
              num_gtb (reduction_at ex c) (bestGain st) = false) as Hmax'.
    { intros c Hc Hadm. eapply Hmax; [done|]. by apply valid_gain_reduction. }
    split; [done|]. split; [done|]. split; [done|].
    split; [|split; [done|]; split; [|split; [apply eps_nearest|];
                split; [intros; by apply buildCART_precheck|done]]].
    2:{ intros w [f thr] Hfin Hc. cbn [fst snd].
        assert (ex ≠ []) as Hne.
        { intros ->. by apply elem_of_nil in Hc. }
        apply not_left_is_right.
        - by eapply isFinite_not_nan, candidate_threshold_finite.
        - intros e He. eapply finite_rows_slot; [done..|].
          rewrite <-(finite_rows_nFeat w ex Hfin Hne).
          by apply all_candidates_elem in Hc as [? _]. }
    split.
    + intros Hle c Hc Hadm. eapply num_gtb_false_mono; [by apply Hmax'|done].
    + intros Hall. destruct Hsel as [E|(i & f & thr & Hi & Hg & Hpos & _)].
      * by rewrite E.
      * apply valid_gain_reduction in Hg as [Hadm Hg].
        specialize (Hall (f, thr) (list_elem_of_lookup_2 _ _ _ Hi) Hadm).
        rewrite <-Hg in Hall.
        destruct (num_leb (bestGain st) eps) eqn:E; [done|].
        apply num_leb_false in E; [congruence| |done].
        apply num_ltb_key in Hpos. tauto.
Qed.

(** C4 as stated fails where it takes a leaf's value to be the exact mean:
    for twenty examples labelled with the double nearest to 0.1 the tree is
    one leaf, and the value it carries is the next double above that label,
    not the exact mean of the labels (which is the label itself). *)
Lemma leaf_mean_not_exact :
  buildCART Samples.ex_tenth.*1 Samples.ex_tenth.*2 0 4 8
    = Some (Leaf (S754_finite false 7205759403792795 (-56)) 20 0)
  ∧ (∀ e, e ∈ Samples.ex_tenth → e.2 = Samples.tenth)
  ∧ exact_mean Samples.ex_tenth.*2 = rational_of Samples.tenth
  ∧ rational_of (S754_finite false 7205759403792795 (-56))
    ≠ exact_mean Samples.ex_tenth.*2.
Proof.
  split; [by vm_compute|]. split; [apply Forall_forall; compute_done|].
  split; compute_done.
Qed.

(** ** The invariant of split nodes *)

(** C10.  In the tree built from examples with finite feature values,
    every split node has: its left subtree built from exactly the node's
    examples whose value at the split feature is [<=] the threshold and its
    right subtree from those whose value is [>] the threshold; at least
    [minLeaf] examples on each side; its [size] equal to the number of
    examples at the node; and both children one level deeper. *)
Theorem split_invariant (w : nat) (ex : list example) (depth maxDepth minLeaf : nat) :
  finite_rows w ex →
  ∃ t, buildCART ex.*1 ex.*2 depth maxDepth minLeaf = Some t
    ∧ node_depth t = depth ∧ node_size t = length ex
    ∧ split_inv maxDepth minLeaf ex t.
Proof.
  intros Hfin.
  destruct (buildCART_examples maxDepth minLeaf
    (λ ex depth t, finite_rows w ex →
       node_depth t = depth ∧ node_size t = length ex
       ∧ split_inv maxDepth minLeaf ex t)) with (ex := ex) (depth := depth)
    as (t & Ht & HP).
  - intros ex0 d st0 _ _ _. done.
  - intros ex0 d st0 i f thr l r Hn Hd Hs0 Hi Hg Heps Hf Hthr Hl Hr Pl Pr Hfin0.
    assert (ex0 ≠ []) as Hne by (destruct ex0; simpl in *; [lia|done]).
    assert (f < w)%nat as Hfw.
    { rewrite <-(finite_rows_nFeat w ex0 Hfin0 Hne). by eapply candidate_feature_lt. }
    assert (not_nan thr) as Hnan.
    { apply isFinite_not_nan, (candidate_threshold_finite ex0.*1 f).
      by eapply list_elem_of_lookup_2. }
    assert (gt_side (Z.of_nat f) thr ex0 = not_left_of f thr ex0) as HR.
    { unfold gt_side. rewrite not_left_is_right.
      - apply list_filter_iff. intros e. by rewrite slotZ_of_nat.
      - done.
      - intros e He. by eapply finite_rows_slot. }
    assert (le_side (Z.of_nat f) thr ex0 = left_of f thr ex0) as HL
      by apply reach_left_of_nat.
    destruct (valid_gain_sizes ex0 minLeaf f thr _ Hg) as (HsL & HsR & _).
    destruct Pl as (Hdl & _ & Hil); [by apply finite_rows_filter|].
    destruct Pr as (Hdr & _ & Hir); [by apply finite_rows_filter|].
    split; [done|]. split; [done|].
    simpl. rewrite HL, HR. done.
  - exists t. split; [done|]. by apply HP.
Qed.

(** ** Constant labels *)

Lemma all_equal_replicate (c : num) (l : list num) :
  (∀ v, v ∈ l → v = c) → l = replicate (length l) c.
Proof.
  induction l as [|v l IH]; intros Hc; [done|]. simpl.
  rewrite (Hc v) by left. f_equal. apply IH. intros; apply Hc. by right.
Qed.

Lemma fsub_self (c : num) : isFinite c = true → fsub c c = zero.
Proof.
  destruct c as [[]| | |s m e]; try done. intros _.
  unfold fsub, SFsub. by rewrite Z.sub_diag.
Qed.

Lemma sum_zeros (k : nat) : sum (replicate k zero) = zero.
Proof. unfold sum. induction k as [|k IH]; [done|]. simpl. exact IH. Qed.

Lemma digits2_pos_lower (p : positive) :
  (2 ^ (Zpos (digits2_pos p) - 1) ≤ Zpos p)%Z.
Proof.
  induction p as [p IH|p IH|]; simpl; [| |done].
  - rewrite Pos2Z.inj_succ.
    replace (Z.succ (Zpos (digits2_pos p)) - 1)%Z
      with (Z.succ (Zpos (digits2_pos p) - 1))%Z by lia.
    rewrite Z.pow_succ_r by lia. lia.
  - rewrite Pos2Z.inj_succ.
    replace (Z.succ (Zpos (digits2_pos p)) - 1)%Z
      with (Z.succ (Zpos (digits2_pos p) - 1))%Z by lia.
    rewrite Z.pow_succ_r by lia. lia.
Qed.

(** A positive array length below [2^53] is a positive finite double. *)
Lemma num_of_nat_finite (n : nat) :
  (0 < n)%nat → (Z.of_nat n < 2 ^ 53)%Z →
  ∃ m e, num_of_nat n = S754_finite false m e.
Proof.
  intros Hn Hlt. unfold num_of_nat, num_of_Z.
  destruct (Z.of_nat n) as [|p|p] eqn:E; [lia| |lia].
  unfold num_of_pos. cbv zeta.
  assert (Zpos (digits2_pos p) ≤ 53)%Z as Hd.
  { pose proof (digits2_pos_lower p) as Hlow.
    destruct (Z.le_gt_cases (Zpos (digits2_pos p)) 53) as [|Hgt]; [done|].
    assert (2 ^ 53 ≤ 2 ^ (Zpos (digits2_pos p) - 1))%Z
      by (apply Z.pow_le_mono_r; lia).
    lia. }
  apply Z.leb_le in Hd. rewrite Hd. by eexists _, _.
Qed.

Lemma variance_const (c : num) (l : list num) :
  isFinite c = true → (Z.of_nat (length l) < 2 ^ 53)%Z →
  (∀ v, v ∈ l → v = c) → (l ≠ [] → mean l = c) → variance l = zero.
Proof.
  intros Hfin Hlen Hc Hmean. rewrite variance_pop_variance. unfold pop_variance.
  destruct l as [|v0 l]; [done|]. set (ys := v0 :: l) in *.
  rewrite Hmean by done.
  assert ((λ v, fmul (fsub v c) (fsub v c)) <$> ys = replicate (length ys) zero) as ->.
  { rewrite (all_equal_replicate c ys Hc) at 1. rewrite fmap_replicate.
    by rewrite fsub_self. }
  rewrite sum_zeros.
  destruct (num_of_nat_finite (length ys)) as (m & e & ->); [simpl; lia|done|done].
Qed.

(** With zero variances on both sides and at the parent, whatever the two
    shares are, the gain is not positive. *)
Lemma gain_of_zero_variances (w1 w2 : num) :
  num_gtb (fsub (fsub zero (fmul w1 zero)) (fmul w2 zero)) zero = false.
Proof.
  destruct w1 as [[]|[]| |[] m1 e1], w2 as [[]|[]| |[] m2 e2]; reflexivity.
Qed.

Lemma gain_const (c : num) (ex : list example) f thr :
  isFinite c = true → (Z.of_nat (length ex) < 2 ^ 53)%Z →
  (∀ e, e ∈ ex → e.2 = c) →
  (∀ k, (1 ≤ k ≤ length ex)%nat → mean (replicate k c) = c) →
  num_gtb (gain_of (variance ex.*2) (length ex)
             (left_of f thr ex).*2 (not_left_of f thr ex).*2) zero = false.
Proof.
  intros Hfin Hlen Hc Hmean. unfold gain_of.
  assert (∀ l : list num, (length l ≤ length ex)%nat → (∀ v, v ∈ l → v = c) →
            variance l = zero) as Hvar.
  { intros l Hl Hl'. apply (variance_const c); [done|lia|done|].
    intros Hne. rewrite (all_equal_replicate c l Hl'). apply Hmean.
    destruct l; simpl in *; [done|lia]. }
  assert (∀ (Q : example → Prop) `{!∀ e, Decision (Q e)},
            variance (filter Q ex).*2 = zero) as Hsub.
  { intros Q ?. apply Hvar.
    - rewrite length_fmap. apply length_filter.
    - intros v Hv. apply list_elem_of_fmap in Hv as (e & -> & He).
      apply list_elem_of_filter in He as [_ He]. by apply Hc. }
  rewrite (Hvar ex.*2).
  - unfold left_of, not_left_of. rewrite !Hsub. apply gain_of_zero_variances.
  - by rewrite length_fmap.
  - intros v Hv. apply list_elem_of_fmap in Hv as (e & -> & He). by apply Hc.
Qed.

(** C8, amended.  When every label of a non-empty training set is the same
    finite value [c], and the mean of [k] copies of [c] computed in double
    arithmetic is [c] itself for every [k] up to the number of examples
    (the running sums are not rounded: small integers, for instance), the
    tree built is the single leaf of value [c], for every [maxDepth] (and
    [minLeaf] and starting depth); training does not throw, and the model
    predicts [c] on every vector. *)
Theorem constant_target (ex : list example) (c : num) (depth maxDepth minLeaf : nat) :
  ex ≠ [] → (Z.of_nat (length ex) < 2 ^ 53)%Z → isFinite c = true →
  (∀ e, e ∈ ex → e.2 = c) →
  (∀ k, (1 ≤ k ≤ length ex)%nat → mean (replicate k c) = c) →
  buildCART ex.*1 ex.*2 depth maxDepth minLeaf = Some (Leaf c (length ex) depth)
  ∧ ∃ m, fitCART ex.*1 ex.*2 = Some m
      ∧ root m = Leaf c (length ex) 0
      ∧ ∀ x, predictTree (root m) x = c ∧ predictBatch m [x] = [c].
Proof.
  intros Hne Hlen Hfin Hc Hmean.
  assert (∀ depth maxDepth minLeaf,
    buildCART ex.*1 ex.*2 depth maxDepth minLeaf = Some (Leaf c (length ex) depth))
    as Hbuild.
  { clear depth maxDepth minLeaf. intros depth maxDepth minLeaf.
    destruct (buildCART_examples maxDepth minLeaf
      (λ ex0 depth t, ex0 = ex → t = Leaf c (length ex) depth))
      with (ex := ex) (depth := depth) as (t & Ht & HP).
    - intros ex0 d st0 _ _ ->. f_equal. rewrite leaf_value_mean by (by destruct ex).
      rewrite (all_equal_replicate c ex.*2), length_fmap.
      + apply Hmean. destruct ex; simpl; [done|lia].
      + intros v Hv. apply list_elem_of_fmap in Hv as (e & -> & He). by apply Hc.
    - intros ex0 d st0 i f thr l r _ _ _ _ Hg Heps _ _ _ _ _ _ ->.
      destruct (valid_gain_sizes ex minLeaf f thr _ Hg) as (_ & _ & Hgain).
      pose proof (gain_const c ex f thr Hfin Hlen Hc Hmean) as Hzero.
      rewrite <-Hgain in Hzero. exfalso.
      assert (num_gtb (bestGain st0) zero = true) as Hpos.
      { unfold num_gtb in *. eapply num_leb_ltb_trans; [|exact Heps].
        by apply num_ltb_leb. }
      congruence.
    - rewrite Ht. f_equal. by apply HP. }
  split; [apply Hbuild|].
  exists (MkModel (nFeat_of ex.*1) (Leaf c (length ex) 0)).
  unfold fitCART. rewrite Hbuild. done.
Qed.

(** C8 as stated fails: on twenty-three examples that all carry the label
    [10^15 + 0.25] the rounded sums give a positive variance, the root is a
    split, and the model predicts [10^15 + 0.125] on the vector [[23]]. *)
Lemma constant_target_splits :
  (∀ e, e ∈ Samples.ex_big → e.2 = Samples.big)
  ∧ variance Samples.ex_big.*2 = S754_finite false 4503599627370496 (-58)
  ∧ ∃ m, fitCART Samples.ex_big.*1 Samples.ex_big.*2 = Some m
      ∧ is_leaf (root m) = false
      ∧ predictTree (root m) [Samples.qz 23]
        = S754_finite false 8000000000000001 (-3)
      ∧ predictTree (root m) [Samples.qz 23] ≠ Samples.big.
Proof.
  split; [apply Forall_forall; compute_done|]. split; [by vm_compute|].
  eexists. split; [vm_compute; reflexivity|].
  repeat split; compute_done.
Qed.

(** ** The order of the candidates and the tie-break *)

Global Instance num_le_transitive : Transitive num_le.
Proof. intros x y z. apply num_leb_trans. Qed.

Lemma StronglySorted_lookup {A} (R : relation A) (l : list A) i j a b :
  StronglySorted R l → (i < j)%nat → l !! i = Some a → l !! j = Some b → R a b.
Proof.
  intros Hs. revert i j. induction Hs as [|x l Hs IH Hx]; intros i j Hij Hi Hj.
  - done.
  - destruct j as [|j]; [lia|]. simpl in Hj. destruct i as [|i].
    + simpl in Hi. injection Hi as <-. rewrite Forall_forall in Hx.
      apply Hx. by eapply list_elem_of_lookup_2.
    + simpl in Hi. eapply IH; [|done..]. lia.
Qed.

Lemma StronglySorted_of_lookup {A} (R : relation A) (l : list A) :
  (∀ i j a b, (i < j)%nat → l !! i = Some a → l !! j = Some b → R a b) →
  StronglySorted R l.
Proof.
  induction l as [|x l IH]; intros Hl; constructor.
  - apply IH. intros i j a b Hij Hi Hj. by apply (Hl (S i) (S j)); [lia|..].
  - apply Forall_forall. intros b Hb.
    apply list_elem_of_lookup_1 in Hb as [j Hj].
    by apply (Hl 0%nat (S j)); [lia|..].
Qed.

Lemma quantile_index_mono (q1 q2 m : nat) :
  (q1 ≤ q2)%nat → (q1 * m / 10 ≤ q2 * m / 10)%nat.
Proof. intros Hq. apply Nat.Div0.div_le_mono. by apply Nat.mul_le_mono_r. Qed.

Lemma candidates_sorted (sorted : list num) :
  Forall not_nan sorted → Sorted num_le sorted →
  StronglySorted num_le (candidates sorted).
Proof.
  intros Hnan Hs. apply Sorted_StronglySorted in Hs; [|apply _].
  destruct (decide (sorted = [])) as [->|Hne]; [constructor|].
  rewrite candidates_pick by done.
  apply StronglySorted_of_lookup. intros i j a b Hij Hi Hj.
  rewrite list_lookup_fmap in Hi. rewrite list_lookup_fmap in Hj.
  destruct (seq 1 9 !! i) as [q1|] eqn:E1; [|done].
  destruct (seq 1 9 !! j) as [q2|] eqn:E2; [|done].
  apply lookup_seq in E1 as [-> Hi9]. apply lookup_seq in E2 as [-> Hj9].
  cbn [fmap option_fmap option_map] in Hi, Hj.
  apply (inj Some) in Hi, Hj. subst a b.
  assert (0 < length sorted)%nat as Hm by (destruct sorted; simpl; [done|lia]).
  pose proof (quantile_index_mono (1 + i) (1 + j) (length sorted)) as Hmono.
  pose proof (quantile_index_lt (1 + i) (length sorted)) as Hlt1.
  pose proof (quantile_index_lt (1 + j) (length sorted)) as Hlt2.
  destruct (lookup_lt_is_Some_2 sorted ((1 + i) * length sorted / 10)) as [va Ha]; [lia|].
  destruct (lookup_lt_is_Some_2 sorted ((1 + j) * length sorted / 10)) as [vb Hb]; [lia|].
  rewrite Ha, Hb. cbn [default from_option].
  destruct (decide ((1 + i) * length sorted / 10 = (1 + j) * length sorted / 10)%nat)
    as [E|E].
  - rewrite E in Ha. rewrite Ha in Hb. injection Hb as <-.
    apply num_leb_refl. rewrite Forall_forall in Hnan. apply Hnan.
    by eapply list_elem_of_lookup_2.
  - eapply (StronglySorted_lookup num_le sorted); [done| |done..]. lia.
Qed.

Lemma thresholds_sorted X f : StronglySorted num_le (thresholds X f).
Proof.
  apply candidates_sorted.
  - rewrite sort_asc_perm. apply finite_vals_not_nan.
  - apply sort_asc_sorted, finite_vals_not_nan.
Qed.

Lemma candidates_of_features_sorted X (fs : list nat) :
  StronglySorted lt fs →
  StronglySorted visit_le (f ← fs; (λ thr, (f, thr)) <$> thresholds X f).
Proof.
  induction 1 as [|f fs Hs IH Hf]; [constructor|].
  cbn [mbind list_bind]. apply StronglySorted_app_2.
  - intros [f1 t1] [f2 t2] H1 H2.
    apply list_elem_of_fmap in H1 as (thr1 & [= -> ->] & _).
    apply list_elem_of_bind in H2 as (f' & H2 & Hf').
    apply list_elem_of_fmap in H2 as (thr2 & [= -> ->] & _).
    left. simpl. rewrite Forall_forall in Hf. by apply Hf.
  - apply StronglySorted_of_lookup. intros i j a b Hij Hi Hj.
    rewrite list_lookup_fmap in Hi. rewrite list_lookup_fmap in Hj.
    destruct (thresholds X f !! i) as [t1|] eqn:E1; [|done].
    destruct (thresholds X f !! j) as [t2|] eqn:E2; [|done].
    simpl in Hi, Hj. injection Hi as <-. injection Hj as <-.
    right. split; [done|]. simpl.
    by eapply (StronglySorted_lookup num_le (thresholds X f)); [apply thresholds_sorted|..].
  - done.
Qed.

Lemma seq_strongly_sorted (a n : nat) : StronglySorted lt (seq a n).
Proof.
  revert a. induction n as [|n IH]; intros a; [constructor|].
  simpl. constructor; [apply IH|].
  apply Forall_forall. intros k Hk. apply elem_of_seq in Hk. lia.
Qed.

Lemma all_candidates_sorted X : StronglySorted visit_le (all_candidates X).
Proof.
  unfold all_candidates.
  apply (candidates_of_features_sorted X (seq 0 (nFeat_of X))).
  apply seq_strongly_sorted.
Qed.

(** C9.  The split search keeps the first candidate, in the order
    (feature index, threshold), that reaches the largest gain, the gains
    being the doubles the code computes: no admissible candidate has a
    gain above the one chosen, and whenever another admissible candidate
    has a gain as large as the one chosen, the chosen one has a lower
    feature index or the same feature and a threshold that is not larger.
    A split node at the root uses exactly that feature and threshold, and
    building the tree again from the same examples gives the same tree. *)
Theorem tie_break (ex : list example) (depth maxDepth minLeaf : nat) :
  ∃ t st,
    buildCART ex.*1 ex.*2 depth maxDepth minLeaf = Some t
    ∧ search ex.*1 ex.*2 minLeaf = Some st
    ∧ (∀ c, c ∈ all_candidates ex.*1 → admissible minLeaf ex c →
         num_gtb (reduction_at ex c) (bestGain st) = false)
    ∧ (∀ f thr, (f, thr) ∈ all_candidates ex.*1 → admissible minLeaf ex (f, thr) →
         num_leb (bestGain st) (reduction_at ex (f, thr)) = true →
         (bestFeat st < Z.of_nat f)%Z
         ∨ (bestFeat st = Z.of_nat f ∧ num_leb (bestThr st) thr = true))
    ∧ (∀ feature threshold l r size d,
         t = Split feature threshold l r size d →
         feature = bestFeat st ∧ threshold = bestThr st
         ∧ ∃ f, feature = Z.of_nat f ∧ (f, threshold) ∈ all_candidates ex.*1
              ∧ admissible minLeaf ex (f, threshold)
              ∧ bestGain st = reduction_at ex (f, threshold))
    ∧ (∀ t', buildCART ex.*1 ex.*2 depth maxDepth minLeaf = Some t' → t' = t).
Proof.
  destruct (search_examples ex minLeaf) as (st & Hsearch & Hge0 & Hmax & Hsel).
  destruct (buildCART_examples maxDepth minLeaf
    (λ ex depth t, ∀ st feature threshold l r size d,
       search ex.*1 ex.*2 minLeaf = Some st →
       t = Split feature threshold l r size d →
       feature = bestFeat st ∧ threshold = bestThr st
       ∧ ∃ f, feature = Z.of_nat f ∧ (f, threshold) ∈ all_candidates ex.*1
            ∧ admissible minLeaf ex (f, threshold)
            ∧ bestGain st = reduction_at ex (f, threshold)))
    with (ex := ex) (depth := depth) as (t & Ht & HP).
  - intros ex0 d0 st0 _ _ st1 feature threshold l r size d _ Hleaf. done.
  - intros ex0 d0 st0 i f thr l r _ _ Hs0 Hi Hg _ Hf Hthr _ _ _ _
           st1 feature threshold l' r' size d Hs1 [= <- <- _ _ _ _].
    rewrite Hs0 in Hs1. injection Hs1 as <-.
    apply valid_gain_reduction in Hg as [Hadm Hg].
    split; [done|]. split; [done|]. exists f.
    split; [done|]. split; [by eapply list_elem_of_lookup_2|done].
  - exists t, st. split; [done|]. split; [done|].
    split; [|split; [|split]].
    + intros c Hc Hadm. eapply Hmax; [done|]. by apply valid_gain_reduction.
    + intros f thr Hc Hadm Hge.
      destruct Hsel as [E|(i & f0 & thr0 & Hi & Hg0 & Hpos & Hst & Hbefore)].
      { left. rewrite E. simpl. lia. }
      assert (bestFeat st = Z.of_nat f0) as Hf0 by (by rewrite Hst).
      assert (bestThr st = thr0) as Ht0 by (by rewrite Hst).
      apply list_elem_of_lookup_1 in Hc as [j Hj].
      destruct (decide (j < i)%nat) as [Hlt|Hnlt].
      { exfalso.
        assert (num_leb (bestGain st) (reduction_at ex (f, thr)) = false) as Hno.
        { eapply (Hbefore j); [done..|]. by apply valid_gain_reduction. }
        congruence. }
      destruct (decide (j = i)) as [->|Hne].
      { rewrite Hi in Hj. injection Hj as -> ->. right.
        split; [done|]. rewrite Ht0. apply num_leb_refl, isFinite_not_nan.
        apply (candidate_threshold_finite ex.*1 f). by eapply list_elem_of_lookup_2. }
      assert (visit_le (f0, thr0) (f, thr)) as [Hlt|[Heq Hle]].
      { eapply (StronglySorted_lookup visit_le (all_candidates ex.*1) i j);
          [apply all_candidates_sorted|lia|done..]. }
      * left. simpl in Hlt. lia.
      * right. simpl in Heq, Hle. rewrite Hf0, Ht0, Heq. done.
    + intros. by eapply HP.
    + intros t' Ht'. rewrite Ht in Ht'. by injection Ht' as <-.
Qed.

(** ** Prediction *)

Lemma slotZ_outside (x : list num) (f : Z) :
  (f < 0 ∨ Z.of_nat (length x) ≤ f)%Z → slotZ x f = NaN.
Proof.
  intros Hout. unfold slotZ. case_decide; [done|].
  unfold slot. rewrite lookup_ge_None_2; [done|lia].
Qed.

(** C3, amended.  [predictTree] returns a number for every tree and every
    vector, whatever the vector's width, and signals no error: at a leaf
    it returns the leaf's value; at a split whose feature index lies
    outside the vector the comparison is false and the traversal goes
    right; otherwise it goes left exactly when the slot is [<=] the
    threshold.  [predictBatch] yields one number per vector and does not
    consult the width recorded in the model. *)
Theorem predict_any_width :
  (∀ value size depth x, predictTree (Leaf value size depth) x = value)
  ∧ (∀ feature threshold l r size depth x,
       (feature < 0 ∨ Z.of_nat (length x) ≤ feature)%Z →
       predictTree (Split feature threshold l r size depth) x = predictTree r x)
  ∧ (∀ feature threshold l r size depth x v,
       (0 ≤ feature)%Z → x !! Z.to_nat feature = Some v →
       predictTree (Split feature threshold l r size depth) x
       = if num_leb v threshold then predictTree l x else predictTree r x)
  ∧ (∀ m XX, length (predictBatch m XX) = length XX)
  ∧ (∀ n n' t XX, predictBatch (MkModel n t) XX = predictBatch (MkModel n' t) XX).
Proof.
  split; [done|]. split; [|split; [|split]].
  - intros feature threshold l r size depth x Hout. simpl.
    by rewrite slotZ_outside.
  - intros feature threshold l r size depth x v Hf Hv. simpl.
    unfold slotZ, slot. rewrite decide_False by lia. by rewrite Hv.
  - intros m XX. unfold predictBatch. by rewrite length_map.
  - done.
Qed.


(** C3 as stated fails: the model trained on twenty examples of width 1
    returns a number on the empty vector and on a vector of width 2. *)
Lemma predict_wrong_width_returns :
  ∃ m, fitCART Samples.ex20.*1 Samples.ex20.*2 = Some m
    ∧ nFeatures m = 1%nat
    ∧ length ([] : list num) ≠ nFeatures m
    ∧ predictBatch m [[]] = [S754_finite false 5220081386270348 (-50)]
    ∧ length [Samples.qz 3; Samples.qz 100] ≠ nFeatures m
    ∧ predictBatch m [[Samples.qz 3; Samples.qz 100]] = [Samples.qz 1].
Proof.
  eexists. split; [vm_compute; reflexivity|].
  repeat split; compute_done.
Qed.

(** ** Feature assembly *)

Import Assembler AssemblerSpec.

(** Membership in a list written out in full. *)
Ltac listed := solve [repeat first [left | right]].

Section assembler_facts.
Context `{Host}.

Lemma getNum_local d1 d2 i col :
  atZ (rows d1) i = atZ (rows d2) i → getNum d1 i col = getNum d2 i col.
Proof. intros E. unfold getNum. by rewrite E. Qed.

Lemma datetime_slots_local d1 d2 t :
  datetimeKey d1 = datetimeKey d2 →
  atZ (rows d1) t = atZ (rows d2) t →
  datetime_slots d1 t = datetime_slots d2 t.
Proof. intros Ek Er. unfold datetime_slots. by rewrite Ek, Er. Qed.

Lemma makeXAt_local d1 d2 tg t :
  same_schema d1 d2 →
  (∀ l, l ∈ [0; 1; 2; 3]%Z → atZ (rows d1) (t - l) = atZ (rows d2) (t - l)) →
  makeXAt d1 tg t = makeXAt d2 tg t.
Proof.
  intros [En Ek] Hrows.
  assert (atZ (rows d1) t = atZ (rows d2) t) as E0.
  { rewrite <-(Z.sub_0_r t). apply Hrows. listed. }
  assert (∀ l col, l ∈ [1; 2; 3]%Z → getNum d1 (t - l) col = getNum d2 (t - l) col) as El.
  { intros l col Hl. apply getNum_local, Hrows. by right. }
  unfold makeXAt, exo_of. rewrite En.
  f_equal; [apply map_ext; intros; by apply getNum_local|].
  f_equal; [|by apply datetime_slots_local].
  unfold LAGS. simpl.
  rewrite !(El _ tg) by listed.
  repeat (f_equal; try (apply map_ext; intros; apply El; listed)).
Qed.

Lemma example_at_local d1 d2 tg t :
  same_schema d1 d2 →
  (∀ l, l ∈ [-1; 0; 1; 2; 3]%Z → atZ (rows d1) (t - l) = atZ (rows d2) (t - l)) →
  example_at d1 tg t = example_at d2 tg t.
Proof.
  intros Hs Hrows. unfold example_at.
  rewrite (makeXAt_local d1 d2 tg t Hs) by (intros; apply Hrows; by right).
  rewrite (getNum_local d1 d2 (t + 1)); [done|].
  replace (t + 1)%Z with (t - -1)%Z by lia. apply Hrows. listed.
Qed.

Lemma attempted_elem d t :
  t ∈ attempted d ↔ (maxLag ≤ t ≤ Z.of_nat (length (rows d)) - 2)%Z.
Proof. unfold attempted. rewrite elem_of_seqZ. lia. Qed.

Lemma example_at_Some d tg t x lbl :
  example_at d tg t = Some (x, lbl)
  ↔ x = makeXAt d tg t ∧ Forall (λ v, isFinite v = true) x
    ∧ getNum d (t + 1) tg = lbl ∧ isFinite lbl = true.
Proof.
  unfold example_at.
  destruct (existsb _ (makeXAt d tg t)) eqn:E.
  - split; [done|]. intros (-> & Hfin & _). exfalso.
    apply existsb_exists in E as (v & Hv & Hn).
    rewrite Forall_forall in Hfin. apply list_elem_of_In in Hv.
    rewrite (Hfin v Hv) in Hn. done.
  - assert (Forall (λ v, isFinite v = true) (makeXAt d tg t)) as Hfin.
    { apply Forall_forall. intros v Hv. apply list_elem_of_In in Hv.
      destruct (isFinite v) eqn:Ev; [done|]. exfalso.
      assert (existsb (λ v, negb (isFinite v)) (makeXAt d tg t) = true) as Hc.
      { apply existsb_exists. exists v. by rewrite Ev. }
      by rewrite E in Hc. }
    cbv zeta. destruct (isFinite (getNum d (t + 1) tg)) eqn:Ey; simpl.
    + split; [by intros [= <- <-]|]. by intros (-> & _ & <- & _).
    + split; [done|]. intros (_ & _ & <- & Hl). congruence.
Qed.

Lemma Xy_examples d tg :
  tg ≠ "" →
  X (Xy (Some d) (Some tg)) = (omap (example_at d tg) (attempted d)).*1
  ∧ y (Xy (Some d) (Some tg)) = (omap (example_at d tg) (attempted d)).*2.
Proof.
  intros Hne. unfold Xy, truthy. by rewrite bool_decide_eq_true_2.
Qed.

Lemma zip_fst_snd {A B} (l : list (A * B)) : zip l.*1 l.*2 = l.
Proof. induction l as [|[a b] l IH]; [done|]. simpl. f_equal. apply IH. Qed.

Lemma datetime_slots_length d t :
  length (datetime_slots d t) = if truthy (datetimeKey d) then 4%nat else 0%nat.
Proof.
  unfold datetime_slots. destruct (datetimeKey d) as [k|]; [|done].
  destruct (truthy (Some k)); simpl; [|done].
  destruct (atZ (rows d) t ≫= _) as [[| [ms|] | |]|]; try done.
  by destruct (getDateParts ms).
Qed.

Lemma makeXAt_length d tg t : length (makeXAt d tg t) = width_of d tg.
Proof.
  unfold makeXAt, width_of. rewrite !length_app, datetime_slots_length.
  unfold LAGS. cbn [map concat].
  repeat first [rewrite length_app | rewrite length_map | progress cbn [length]].
  lia.
Qed.

(** What the assembler hands to training: finite vectors of one width. *)
Lemma Xy_finite_rows d tg :
  tg ≠ "" →
  finite_rows (width_of d tg)
    (zip (X (Xy (Some d) (Some tg))) (y (Xy (Some d) (Some tg)))).
Proof.
  intros Hne. destruct (Xy_examples d tg Hne) as [-> ->]. rewrite zip_fst_snd.
  apply Forall_forall. intros [x lbl] Hin.
  apply list_elem_of_omap in Hin as (t & _ & Hex).
  apply example_at_Some in Hex as (-> & Hfin & _).
  split; [apply makeXAt_length|done].
Qed.
End assembler_facts.

(** ** Stable sorting by a comparator *)

Section sort_by_facts.
Context {A : Type} (gt : A → A → bool).

Lemma insert_by_perm a l : Supervised.insert_by gt a l ≡ₚ a :: l.
Proof.
  induction l as [|b l IH]; simpl; [done|].
  destruct (gt b a); [done|]. rewrite IH. apply Permutation_swap.
Qed.

Lemma sort_by_perm_from acc l :
  foldl (λ acc a, Supervised.insert_by gt a acc) acc l ≡ₚ acc ++ l.
Proof.
  revert acc. induction l as [|a l IH]; intros acc; simpl.
  - by rewrite app_nil_r.
  - rewrite IH, insert_by_perm. simpl. apply Permutation_middle.
Qed.

Lemma sort_by_perm l : Supervised.sort_by gt l ≡ₚ l.
Proof. apply (sort_by_perm_from [] l). Qed.

Variable V : A → Prop.
Variable R : relation A.
Hypothesis gt_true : ∀ a b, V a → V b → gt b a = true → R a b.
Hypothesis gt_false : ∀ a b, V a → V b → gt b a = false → R b a.

Lemma insert_by_sorted a l :
  V a → Forall V l → Sorted R l → Sorted R (Supervised.insert_by gt a l).
Proof.
  intros Va Vl Hs. induction Hs as [|b l Hs IH Hhd]; simpl; [by repeat constructor|].
  apply Forall_cons in Vl as [Vb Vl].
  destruct (gt b a) eqn:E.
  - constructor; [by constructor|]. constructor. by apply gt_true.
  - constructor; [by apply IH|].
    destruct Hhd as [|c l' Hc]; simpl; [constructor; by apply gt_false|].
    destruct (gt c a); constructor; [by apply gt_false|done].
Qed.

Lemma sort_by_sorted_from acc l :
  Forall V acc → Forall V l → Sorted R acc →
  Sorted R (foldl (λ acc a, Supervised.insert_by gt a acc) acc l).
Proof.
  revert acc. induction l as [|a l IH]; intros acc Vacc Vl Hs; simpl; [done|].
  apply Forall_cons in Vl as [Va Vl]. apply IH; [|done|by apply insert_by_sorted].
  rewrite insert_by_perm. by constructor.
Qed.

Lemma sort_by_sorted l : Forall V l → Sorted R (Supervised.sort_by gt l).
Proof. intros Vl. apply sort_by_sorted_from; [constructor|done|constructor]. Qed.
End sort_by_facts.

Lemma orderedRows_perm `{Supervised.Engine} (d : DataFrame) :
  Supervised.orderedRows d
  ≡ₚ filter (λ r, Supervised.is_Date (Supervised.dtCol d) r = true) (rows d).
Proof.
  unfold Supervised.orderedRows. cbv zeta.
  destruct (forallb _ _); [apply sort_by_perm|apply Supervised.engine_sort_perm].
Qed.

Lemma orderedRows_sorted `{Supervised.Engine} (d : DataFrame) :
  dates_valid (Supervised.dtCol d) (rows d) →
  Sorted (time_le (Supervised.dtCol d)) (Supervised.orderedRows d).
Proof.
  intros Hvalid. unfold Supervised.orderedRows. set (k := Supervised.dtCol d) in *.
  cbv zeta.
  assert (Forall (λ r, ∃ t, Supervised.getTime k r = Some t)
            (filter (λ r, Supervised.is_Date k r = true) (rows d))) as Hdated.
  { apply Forall_forall. intros r Hr.
    apply list_elem_of_filter in Hr as [Hdate Hr].
    unfold dates_valid in Hvalid. rewrite Forall_forall in Hvalid.
    specialize (Hvalid r Hr). unfold Supervised.is_Date in Hdate.
    unfold Supervised.getTime.
    destruct (r !! k) as [[| [t|] | |]|]; try done. by exists t. }
  rewrite (proj2 (forallb_forall _ _)).
  - apply (sort_by_sorted (Supervised.after k)
             (λ r, ∃ t, Supervised.getTime k r = Some t) (time_le k)); [| |done].
    + intros a b [ta Ha] [tb Hb]. unfold Supervised.after, time_le.
      rewrite Ha, Hb. intros Hgt. apply bool_decide_eq_true in Hgt. lia.
    + intros a b [ta Ha] [tb Hb]. unfold Supervised.after, time_le.
      rewrite Ha, Hb. intros Hgt. apply bool_decide_eq_false in Hgt. lia.
  - intros r Hr. apply list_elem_of_In in Hr. rewrite Forall_forall in Hdated.
    destruct (Hdated r Hr) as [t Ht]. apply bool_decide_eq_true. by rewrite Ht.
Qed.

(** C1, amended.  The assembler [Xy] reads the table's rows in their stored
    order, with no timestamp filter and no sort: the feature vector at [t]
    is determined by the rows stored at positions [t], [t-1], [t-2], [t-3]
    and the label by the row stored at [t+1]; the examples are those built
    at the positions [maxLag .. N-2] of the stored rows, in that order.
    Only the earlier lag-1 builder [buildSupervised] keeps the rows whose
    [datetime] cell is a Date and orders them ascending by time. *)
Theorem features_by_stored_position `{Host} `{Supervised.Engine} :
  (∀ d1 d2 tg t,
     same_schema d1 d2 →
     (∀ l, l ∈ [0; 1; 2; 3]%Z → atZ (rows d1) (t - l) = atZ (rows d2) (t - l)) →
     makeXAt d1 tg t = makeXAt d2 tg t)
  ∧ (∀ d1 d2 tg t,
       atZ (rows d1) (t + 1) = atZ (rows d2) (t + 1) →
       getNum d1 (t + 1) tg = getNum d2 (t + 1) tg)
  ∧ (∀ d tg, tg ≠ "" →
       zip (X (Xy (Some d) (Some tg))) (y (Xy (Some d) (Some tg)))
       = omap (example_at d tg)
              (seqZ maxLag (Z.of_nat (length (rows d)) - 1 - maxLag)))
  ∧ (∀ d, let k := Supervised.dtCol d in
       Supervised.orderedRows d
         ≡ₚ filter (λ r, Supervised.is_Date k r = true) (rows d)
       ∧ (dates_valid k (rows d) → Sorted (time_le k) (Supervised.orderedRows d))).
Proof.
  split; [apply @makeXAt_local|]. split; [intros; by apply getNum_local|].
  split.
  - intros d tg Hne. destruct (Xy_examples d tg Hne) as [-> ->].
    apply zip_fst_snd.
  - intros d k. split; [apply orderedRows_perm|apply orderedRows_sorted].
Qed.

(** C1 as stated fails: on five rows stored with the first two out of time
    order, the assembler's lag features follow the stored order, not the
    order of the timestamps; and a row without a timestamp is not removed. *)
Lemma assembler_keeps_stored_order :
  X (@Xy Samples.utc_host (Some Samples.df_unsorted) (Some "a"))
    = [[Samples.qz 3; Samples.qz 1; Samples.qz 2;
        zero; Samples.qz 1; zero; Samples.qz 1]]
  ∧ X (@Xy Samples.utc_host (Some (by_timestamp Samples.df_unsorted)) (Some "a"))
    = [[Samples.qz 3; Samples.qz 2; Samples.qz 1;
        zero; Samples.qz 1; zero; Samples.qz 1]]
  ∧ X (@Xy Samples.utc_host (Some Samples.df_unsorted) (Some "a"))
    ≠ X (@Xy Samples.utc_host (Some (by_timestamp Samples.df_unsorted)) (Some "a"))
  ∧ length (X (@Xy Samples.utc_host (Some Samples.df_gap) (Some "a"))) = 2%nat
  ∧ length (X (@Xy Samples.utc_host (Some (by_timestamp Samples.df_gap)) (Some "a")))
    = 1%nat.
Proof. repeat split; compute_done. Qed.

Lemma maxLag_value : maxLag = 3%Z.
Proof. done. Qed.

(** C6, amended.  A feature vector built at position [t] is emitted as a
    training example exactly when every slot is a finite number and the
    target's value at [t+1] is a finite number, which becomes the label;
    nothing is imputed.  The positions attempted are [maxLag .. N-2], where
    [maxLag = 3] is the largest lag and [N] is the number of rows of the
    table as stored, and the examples keep the order of the positions. *)
Theorem emitted_examples `{Host} (d : DataFrame) (tg : string) :
  tg ≠ "" →
  let xy := Xy (Some d) (Some tg) in
  let N := Z.of_nat (length (rows d)) in
  length (X xy) = length (y xy)
  ∧ zip (X xy) (y xy) = omap (example_at d tg) (attempted d)
  ∧ (∀ t, t ∈ attempted d ↔ (maxLag ≤ t ≤ N - 2)%Z)
  ∧ maxLag = 3%Z
  ∧ (∀ x lbl,
       (x, lbl) ∈ zip (X xy) (y xy)
       ↔ ∃ t, (maxLag ≤ t ≤ N - 2)%Z
           ∧ x = makeXAt d tg t
           ∧ Forall (λ v, isFinite v = true) x
           ∧ getNum d (t + 1) tg = lbl ∧ isFinite lbl = true)
  ∧ (∀ t x lbl, example_at d tg t = Some (x, lbl) →
       x = makeXAt d tg t ∧ Forall (λ v, isFinite v = true) x
       ∧ getNum d (t + 1) tg = lbl ∧ isFinite lbl = true).
Proof.
  intros Hne xy N. destruct (Xy_examples d tg Hne) as [HX Hy].
  fold xy in HX, Hy.
  assert (zip (X xy) (y xy) = omap (example_at d tg) (attempted d)) as Hzip
    by (rewrite HX, Hy; apply zip_fst_snd).
  split; [by rewrite HX, Hy, !length_fmap|].
  split; [done|]. split; [apply attempted_elem|]. split; [done|].
  split; [|intros t x lbl; apply example_at_Some].
  intros x lbl. rewrite Hzip, list_elem_of_omap. split.
  - intros (t & Ht & Hex). exists t. split; [by apply attempted_elem|].
    by apply example_at_Some.
  - intros (t & Ht & Hx). exists t. split; [by apply attempted_elem|].
    by apply example_at_Some.
Qed.

(** C6 as stated fails where it takes [N] to be the number of rows left
    after the timestamp filter: with six stored rows of which five have a
    timestamp, an example is built at position 4, beyond [5 - 2]. *)
Lemma attempts_use_stored_row_count :
  length (rows (by_timestamp Samples.df_gap)) = 5%nat
  ∧ 4%Z ∈ attempted Samples.df_gap
  ∧ ¬ (4 ≤ Z.of_nat (length (rows (by_timestamp Samples.df_gap))) - 2)%Z
  ∧ @example_at Samples.utc_host Samples.df_gap "a" 4
    = Some ([Samples.qz 4; Samples.qz 3; Samples.qz 2;
             zero; Samples.qz 1; zero; Samples.qz 1], Samples.qz 6).
Proof.
  split; [compute_done|]. split; [compute_done|]. split; [compute_done|].
  compute_done.
Qed.

(** ** Training through the orchestrator *)

Import Orchestrator.

(** C7.  With fewer than 20 assembled examples [train] produces no model
    and leaves the model held (and the prediction) as they were; with 20
    or more it fits a model on the examples, which does not throw, and
    holds it. *)
Theorem train_floor `{Host} (s : State) :
  let xy := Xy (df s) (target s) in
  ((length (X xy) < 20)%nat →
     ∃ s', train s = Some s' ∧ model s' = model s ∧ prediction s' = prediction s
       ∧ df s' = df s ∧ target s' = target s)
  ∧ ((20 ≤ length (X xy))%nat →
       ∃ m s', fitCART (X xy) (y xy) = Some m
         ∧ train s = Some s' ∧ model s' = Some m ∧ prediction s' = None
         ∧ df s' = df s ∧ target s' = target s).
Proof.
  intros xy. unfold train. split.
  - intros Hlt. destruct (df s) as [d|] eqn:Ed; [|by eexists; split; [reflexivity|]].
    destruct (truthy (target s)) eqn:Et; [|by eexists; split; [reflexivity|]].
    unfold xy in *. rewrite decide_True by done. by eexists; split; [reflexivity|].
  - intros Hge. destruct (df s) as [d|] eqn:Ed; [|simpl in *; lia].
    destruct (target s) as [tg|] eqn:Etg; [|simpl in *; lia].
    destruct (truthy (Some tg)) eqn:Et; [|unfold xy, Xy in Hge; rewrite Et in Hge; simpl in *; lia].
    assert (tg ≠ "") as Hne by (by apply bool_decide_eq_true in Et).
    destruct (Xy_examples d tg Hne) as [HX Hy]. fold xy in HX, Hy.
    assert (∃ m, fitCART (X xy) (y xy) = Some m) as [m Hm].
    { unfold fitCART. rewrite HX, Hy.
      destruct (buildCART_total (omap (example_at d tg) (attempted d)) 0 4 8)
        as (t & Ht).
      rewrite Ht. by eexists. }
    exists m. unfold xy in *. rewrite decide_False by lia. rewrite Hm.
    by eexists; split; [done|]; split; [reflexivity|].
Qed.

(** ** The statements at concrete inputs *)

Lemma ex20_finite : ∀ e, e ∈ Samples.ex20 → isFinite (slot e.1 0) = true.
Proof. apply Forall_forall. compute_done. Defined.

Lemma nine_not_nan : not_nan (Samples.qz 9).
Proof. done. Defined.

Lemma partition_and_gain_witness :
  not_nan (Samples.qz 9)
  ∧ (∀ e, e ∈ Samples.ex20 → isFinite (slot e.1 0) = true)
  ∧ (let ex := Samples.ex20 in
     let thr := Samples.qz 9 in
     let lft := left_of 0 thr ex in
     let rgt := right_of 0 thr ex in
     let p := split_at ex.*1 ex.*2 0 thr in
     let gain :=
       fsub (fsub (variance ex.*2)
                  (fmul (fdiv (num_of_nat (length lft)) (num_of_nat (length ex)))
                        (pop_variance lft.*2)))
            (fmul (fdiv (num_of_nat (length rgt)) (num_of_nat (length ex)))
                  (pop_variance rgt.*2)) in
     partition_rows ex.*1 ex.*2 0 thr = Some p
     ∧ pL p = lft.*2 ∧ pR p = rgt.*2
     ∧ pick ex.*1 (pLi p) = lft.*1 ∧ pick ex.*1 (pRi p) = rgt.*1
     ∧ lft ++ rgt ≡ₚ ex
     ∧ try_threshold ex.*1 ex.*2 8 (variance ex.*2) 0 (Some best_init) thr
       = Some (if decide (length lft < 8 ∨ length rgt < 8)%nat then best_init
               else if num_gtb gain (bestGain best_init)
                    then Best gain (Z.of_nat 0) thr (pLi p) (pRi p)
                    else best_init)
     ∧ (∀ ys, variance ys = pop_variance ys)
     ∧ variance [] = zero).
Proof.
  split; [exact nine_not_nan|]. split; [exact ex20_finite|].
  exact (partition_and_gain Samples.ex20 0 (Samples.qz 9) 8
           (variance Samples.ex20.*2) best_init nine_not_nan ex20_finite).
Defined.

Lemma ex_const_labels : ∀ e, e ∈ Samples.ex_const → e.2 = Samples.qz 7.
Proof. apply Forall_forall. compute_done. Defined.

Lemma ex_const_nonempty : Samples.ex_const ≠ [].
Proof. done. Defined.

Lemma ex_const_short : (Z.of_nat (length Samples.ex_const) < 2 ^ 53)%Z.
Proof. reflexivity. Defined.

Lemma seven_finite : isFinite (Samples.qz 7) = true.
Proof. reflexivity. Defined.

Lemma ex_const_means :
  ∀ k, (1 ≤ k ≤ length Samples.ex_const)%nat →
    mean (replicate k (Samples.qz 7)) = Samples.qz 7.
Proof.
  intros k Hk.
  assert (Forall (λ k, mean (replicate k (Samples.qz 7)) = Samples.qz 7) (seq 1 20))
    as Hall by compute_done.
  rewrite Forall_forall in Hall. apply Hall, elem_of_seq.
  change (length Samples.ex_const) with 20%nat in Hk. lia.
Defined.

Lemma constant_target_witness :
  Samples.ex_const ≠ []
  ∧ (Z.of_nat (length Samples.ex_const) < 2 ^ 53)%Z
  ∧ isFinite (Samples.qz 7) = true
  ∧ (∀ e, e ∈ Samples.ex_const → e.2 = Samples.qz 7)
  ∧ (∀ k, (1 ≤ k ≤ length Samples.ex_const)%nat →
       mean (replicate k (Samples.qz 7)) = Samples.qz 7)
  ∧ buildCART Samples.ex_const.*1 Samples.ex_const.*2 0 4 8
    = Some (Leaf (Samples.qz 7) (length Samples.ex_const) 0)
  ∧ ∃ m, fitCART Samples.ex_const.*1 Samples.ex_const.*2 = Some m
      ∧ root m = Leaf (Samples.qz 7) (length Samples.ex_const) 0
      ∧ ∀ x, predictTree (root m) x = Samples.qz 7
             ∧ predictBatch m [x] = [Samples.qz 7].
Proof.
  split; [exact ex_const_nonempty|]. split; [exact ex_const_short|].
  split; [exact seven_finite|]. split; [exact ex_const_labels|].
  split; [exact ex_const_means|].
  exact (constant_target Samples.ex_const (Samples.qz 7) 0 4 8 ex_const_nonempty
           ex_const_short seven_finite ex_const_labels ex_const_means).
Defined.

Lemma ex20_finite_rows : finite_rows 1 Samples.ex20.
Proof. unfold finite_rows. compute_done. Defined.

Lemma split_invariant_witness :
  finite_rows 1 Samples.ex20
  ∧ ∃ t, buildCART Samples.ex20.*1 Samples.ex20.*2 0 4 8 = Some t
      ∧ node_depth t = 0%nat ∧ node_size t = length Samples.ex20
      ∧ split_inv 4 8 Samples.ex20 t.
Proof.
  split; [exact ex20_finite_rows|].
  exact (split_invariant 1 Samples.ex20 0 4 8 ex20_finite_rows).
Defined.

Lemma emitted_examples_witness :
  "a" ≠ ""
  ∧ (let d := Samples.df_plain 24 in
     let xy := @Xy Samples.utc_host (Some d) (Some "a") in
     let N := Z.of_nat (length (rows d)) in
     length (X xy) = length (y xy)
     ∧ zip (X xy) (y xy) = omap (@example_at Samples.utc_host d "a") (attempted d)
     ∧ (∀ t, t ∈ attempted d ↔ (maxLag ≤ t ≤ N - 2)%Z)
     ∧ maxLag = 3%Z
     ∧ (∀ x lbl,
          (x, lbl) ∈ zip (X xy) (y xy)
          ↔ ∃ t, (maxLag ≤ t ≤ N - 2)%Z
              ∧ x = @makeXAt Samples.utc_host d "a" t
              ∧ Forall (λ v, isFinite v = true) x
              ∧ @getNum d (t + 1) "a" = lbl ∧ isFinite lbl = true)
     ∧ (∀ t x lbl, @example_at Samples.utc_host d "a" t = Some (x, lbl) →
          x = @makeXAt Samples.utc_host d "a" t
          ∧ Forall (λ v, isFinite v = true) x
          ∧ @getNum d (t + 1) "a" = lbl ∧ isFinite lbl = true)).
Proof.
  assert ("a" ≠ "") as Hne by done.
  split; [exact Hne|].
  exact (@emitted_examples Samples.utc_host (Samples.df_plain 24) "a" Hne).
Defined.

Lemma train_floor_witness :
  (length (X (@Xy Samples.utc_host (df Samples.state19) (target Samples.state19))) < 20)%nat
  ∧ (20 ≤ length (X (@Xy Samples.utc_host (df Samples.state20) (target Samples.state20))))%nat
  ∧ (∃ s', @train Samples.utc_host Samples.state19 = Some s'
        ∧ model s' = model Samples.state19
        ∧ prediction s' = prediction Samples.state19
        ∧ df s' = df Samples.state19 ∧ target s' = target Samples.state19)
  ∧ (∃ m s',
        fitCART (X (@Xy Samples.utc_host (df Samples.state20) (target Samples.state20)))
                (y (@Xy Samples.utc_host (df Samples.state20) (target Samples.state20)))
        = Some m
        ∧ @train Samples.utc_host Samples.state20 = Some s'
        ∧ model s' = Some m ∧ prediction s' = None
        ∧ df s' = df Samples.state20 ∧ target s' = target Samples.state20).
Proof.
  assert (length (X (@Xy Samples.utc_host (df Samples.state19)
                       (target Samples.state19))) < 20)%nat as H19 by compute_done.
  assert (20 ≤ length (X (@Xy Samples.utc_host (df Samples.state20)
                            (target Samples.state20))))%nat as H20 by compute_done.
  split; [exact H19|]. split; [exact H20|]. split.
  - exact (proj1 (@train_floor Samples.utc_host Samples.state19) H19).
  - exact (proj2 (@train_floor Samples.utc_host Samples.state20) H20).
Defined.


(** * Further properties *)

Import TreeShape.

(** ** What a trained tree predicts *)

Lemma filter_nonempty_of_length {A} (P : A → Prop) `{!∀ a, Decision (P a)}
    (l : list A) (k : nat) :
  (0 < k)%nat → (k ≤ length (filter P l))%nat → filter P l ≠ [].
Proof. intros Hk Hlen E. rewrite E in Hlen. simpl in Hlen. lia. Qed.


(** X2.  The value predicted for a vector [x] is the mean, as double
    arithmetic computes it (the labels added in training order, the sum
    divided by their number), of the labels of the training examples that
    the tree routes to the same leaf as [x]; that set is never empty (for
    [minLeaf >= 1] and a non-empty training set), holds training examples
    only, and every training example belongs to the set of its own
    vector. *)
Theorem prediction_is_cell_mean (ex : list example) (depth maxDepth minLeaf : nat) :
  (0 < minLeaf)%nat → ex ≠ [] →
  ∃ t, buildCART ex.*1 ex.*2 depth maxDepth minLeaf = Some t
    ∧ (∀ x, co_routed t x ex ≠ []
          ∧ predictTree t x = mean (co_routed t x ex).*2
          ∧ ∀ e, e ∈ co_routed t x ex → e ∈ ex)
    ∧ (∀ e, e ∈ ex → e ∈ co_routed t e.1 ex).
Proof.
  intros Hmin Hne.
  destruct (buildCART_examples maxDepth minLeaf
    (λ ex depth t, ex ≠ [] →
       (∀ x, co_routed t x ex ≠ []
          ∧ predictTree t x = mean (co_routed t x ex).*2
          ∧ ∀ e, e ∈ co_routed t x ex → e ∈ ex)
       ∧ (∀ e, e ∈ ex → e ∈ co_routed t e.1 ex)))
    with (ex := ex) (depth := depth) as (t & Ht & HP).
  - intros ex0 d st _ _ Hne0. split; [|done]. intros x. simpl.
    split; [done|]. split; [|done]. apply leaf_value_mean. by destruct ex0.
  - intros ex0 d st i f thr l r _ _ _ _ Hg _ _ _ _ _ Pl Pr Hne0.
    destruct (valid_gain_sizes ex0 minLeaf f thr _ Hg) as (HsL & HsR & _).
    destruct Pl as [Pl1 Pl2]; [by eapply filter_nonempty_of_length|].
    destruct Pr as [Pr1 Pr2]; [by eapply filter_nonempty_of_length|].
    split.
    + intros x. simpl. rewrite reach_left_of_nat, reach_right_of_nat.
      destruct (num_leb (slotZ x (Z.of_nat f)) thr).
      * destruct (Pl1 x) as (H1 & H2 & H3). split; [done|]. split; [done|].
        intros e He. apply H3 in He. by apply list_elem_of_filter in He as [_ He].
      * destruct (Pr1 x) as (H1 & H2 & H3). split; [done|]. split; [done|].
        intros e He. apply H3 in He. by apply list_elem_of_filter in He as [_ He].
    + intros e He. simpl. rewrite reach_left_of_nat, reach_right_of_nat.
      rewrite slotZ_of_nat.
      destruct (num_leb (slot e.1 f) thr) eqn:E.
      * apply Pl2. by apply list_elem_of_filter.
      * apply Pr2. by apply list_elem_of_filter.
  - exists t. split; [done|]. by apply HP.
Qed.

(** ** The shape of a trained tree *)

Lemma left_not_left_length (ex : list example) f thr :
  (length (left_of f thr ex) + length (not_left_of f thr ex) = length ex)%nat.
Proof. rewrite <-length_app. by rewrite left_not_left_perm. Qed.

(** X3.  The leaves of a trained tree partition the training set: their
    [size] fields add up to the number of training examples, and when the
    root is a split every leaf holds at least [minLeaf] examples. *)
Theorem leaves_partition_examples (ex : list example) (depth maxDepth minLeaf : nat) :
  ∃ t, buildCART ex.*1 ex.*2 depth maxDepth minLeaf = Some t
    ∧ sum_list (leaf_sizes t) = length ex
    ∧ node_size t = length ex
    ∧ (is_leaf t = false → Forall (λ s, minLeaf ≤ s)%nat (leaf_sizes t)).
Proof.
  destruct (buildCART_examples maxDepth minLeaf
    (λ ex depth t,
       sum_list (leaf_sizes t) = length ex ∧ node_size t = length ex
       ∧ ((minLeaf ≤ length ex)%nat → Forall (λ s, minLeaf ≤ s)%nat (leaf_sizes t))))
    with (ex := ex) (depth := depth) as (t & Ht & HP).
  - intros ex0 d st _ _. simpl. split; [lia|]. split; [done|].
    intros Hle. by constructor.
  - intros ex0 d st i f thr l r _ _ _ _ Hg _ _ _ _ _
           (HlS & _ & HlF) (HrS & _ & HrF).
    destruct (valid_gain_sizes ex0 minLeaf f thr _ Hg) as (HsL & HsR & _).
    simpl. rewrite sum_list_with_app, HlS, HrS, left_not_left_length.
    split; [done|]. split; [done|]. intros _.
    apply Forall_app. split; [by apply HlF|by apply HrF].
  - exists t. destruct HP as (HS & Hn & HF).
    split; [done|]. split; [done|]. split; [done|].
    intros Hsplit. apply HF. destruct t as [|feature threshold l r size d]; [done|].
    clear HF. rewrite buildCART_eq in Ht. rewrite length_fmap in Ht.
    case_bool_decide as Hpre; [done|]. lia.
Qed.

(** X4.  Every node of a trained tree lies between the starting depth and
    [maxDepth], and the tree has at most [2 ^ (maxDepth - depth)] leaves;
    [fitCART] therefore returns a tree of depth at most 4 with at most 16
    leaves. *)
Theorem depth_and_leaf_bound (ex : list example) (depth maxDepth minLeaf : nat) :
  ∃ t, buildCART ex.*1 ex.*2 depth maxDepth minLeaf = Some t
    ∧ Forall (λ d, depth ≤ d ∧ d ≤ Nat.max depth maxDepth)%nat (node_depths t)
    ∧ (length (leaf_sizes t) ≤ 2 ^ (maxDepth - depth))%nat
    ∧ (length (splits t) + 1 = length (leaf_sizes t))%nat.
Proof.
  destruct (buildCART_examples maxDepth minLeaf
    (λ ex depth t,
       Forall (λ d, depth ≤ d ∧ d ≤ Nat.max depth maxDepth)%nat (node_depths t)
       ∧ (length (leaf_sizes t) ≤ 2 ^ (maxDepth - depth))%nat
       ∧ (length (splits t) + 1 = length (leaf_sizes t))%nat))
    with (ex := ex) (depth := depth) as (t & Ht & HP).
  - intros ex0 d st _ _. simpl. split; [constructor; [lia|constructor]|].
    split; [|done]. pose proof (Nat.pow_nonzero 2 (maxDepth - d)). lia.
  - intros ex0 d st i f thr l r _ Hd _ _ _ _ _ _ _ _
           (HlD & HlL & HlS) (HrD & HrL & HrS).
    simpl. split.
    + constructor; [lia|]. apply Forall_app.
      split; (eapply Forall_impl; [eassumption|]); simpl; intros; lia.
    + rewrite !length_app. split; [|lia].
      replace (maxDepth - d)%nat with (S (maxDepth - (d + 1)))%nat by lia.
      rewrite Nat.pow_succ_r'. lia.
  - by exists t.
Qed.

Lemma thresholds_observed X f thr :
  thr ∈ thresholds X f → ∃ row, row ∈ X ∧ slot row f = thr.
Proof.
  intros Hthr. by apply thresholds_elem, finite_vals_elem in Hthr as [_ ?].
Qed.

(** X5.  In a tree trained on finite feature vectors of width [w], every
    split tests a slot index in [0 .. w-1] against a threshold that is the
    value of that slot in some training example; so on a vector of width
    [w] no split ever reads a missing slot. *)
Theorem splits_use_observed_values (w : nat) (ex : list example)
    (depth maxDepth minLeaf : nat) :
  finite_rows w ex →
  ∃ t, buildCART ex.*1 ex.*2 depth maxDepth minLeaf = Some t
    ∧ Forall (λ s : Z * num,
                (0 ≤ s.1 < Z.of_nat w)%Z
                ∧ (∃ e, e ∈ ex ∧ slotZ e.1 s.1 = s.2)
                ∧ ∀ x : list num, length x = w → is_Some (x !! Z.to_nat s.1))
             (splits t).
Proof.
  intros Hfin.
  destruct (buildCART_examples maxDepth minLeaf
    (λ ex depth t, finite_rows w ex →
       Forall (λ s : Z * num,
                 (0 ≤ s.1 < Z.of_nat w)%Z
                 ∧ (∃ e, e ∈ ex ∧ slotZ e.1 s.1 = s.2)
                 ∧ ∀ x : list num, length x = w → is_Some (x !! Z.to_nat s.1))
              (splits t)))
    with (ex := ex) (depth := depth) as (t & Ht & HP).
  - intros ex0 d st _ _ _. constructor.
  - intros ex0 d st i f thr l r Hn _ _ Hi _ _ _ _ _ _ Pl Pr Hfin0.
    assert (ex0 ≠ []) as Hne by (destruct ex0; simpl in *; [lia|done]).
    assert (f < w)%nat as Hfw.
    { rewrite <-(finite_rows_nFeat w ex0 Hfin0 Hne). by eapply candidate_feature_lt. }
    apply list_elem_of_lookup_2, all_candidates_elem in Hi as [_ Hthr].
    apply thresholds_observed in Hthr as (row & Hrow & Hslot).
    apply list_elem_of_fmap in Hrow as (e & -> & He).
    simpl. constructor; [|apply Forall_app; split].
    + simpl. split; [lia|]. split.
      * exists e. split; [done|]. by rewrite slotZ_of_nat.
      * intros x Hx. rewrite Nat2Z.id. apply lookup_lt_is_Some_2. lia.
    + eapply Forall_impl; [apply Pl; by apply finite_rows_filter|].
      intros s (H1 & (e' & He' & H2) & H3). split; [done|]. split; [|done].
      exists e'. split; [|done]. by apply list_elem_of_filter in He' as [_ ?].
    + eapply Forall_impl; [apply Pr; by apply finite_rows_filter|].
      intros s (H1 & (e' & He' & H2) & H3). split; [done|]. split; [|done].
      exists e'. split; [|done]. by apply list_elem_of_filter in He' as [_ ?].
  - exists t. split; [done|]. by apply HP.
Qed.


(** ** Widths, names and the number of examples *)

Import Names.

Lemma featNames_length d tg : length (featNames d tg) = width_of d tg.
Proof.
  unfold featNames, width_of, LAGS, USE_DATETIME_FEATURES. cbn [map concat andb].
  repeat first [rewrite length_app | rewrite length_map | progress cbn [length]].
  destruct (truthy (datetimeKey d)); simpl; lia.
Qed.

Lemma fitCART_nFeatures X y m : fitCART X y = Some m → nFeatures m = nFeat_of X.
Proof.
  unfold fitCART. destruct (buildCART X y 0 4 8); simpl; [|done].
  by intros [= <-].
Qed.

(** X8.  For a table and a target, every training vector, the vector used
    by [predict] and the list of feature names have one and the same
    length, [|exo| + 3·(1 + |exo|)] plus 4 when the table has a timestamp
    column; a model fitted on at least one example records that length, so
    [predict] always hands it a vector of the trained width. *)
Theorem feature_width `{Host} (d : DataFrame) (tg : string) :
  tg ≠ "" →
  let xy := Xy (Some d) (Some tg) in
  (∀ x, x ∈ X xy → length x = width_of d tg)
  ∧ length (makeNextX xy) = width_of d tg
  ∧ length (featNames d tg) = width_of d tg
  ∧ (∀ m, fitCART (X xy) (y xy) = Some m → X xy ≠ [] →
       nFeatures m = length (makeNextX xy)).
Proof.
  intros Hne xy.
  assert (∀ x, x ∈ X xy → length x = width_of d tg) as HX.
  { intros x Hx. destruct (Xy_examples d tg Hne) as [HXe _]. fold xy in HXe.
    rewrite HXe in Hx. apply list_elem_of_fmap in Hx as ([x' lbl] & -> & Hin).
    apply list_elem_of_omap in Hin as (t & _ & Hex).
    apply example_at_Some in Hex as (-> & _). apply makeXAt_length. }
  assert (length (makeNextX xy) = width_of d tg) as Hnext.
  { unfold xy, Xy, truthy. rewrite bool_decide_eq_true_2 by done. simpl.
    apply makeXAt_length. }
  split; [done|]. split; [done|]. split; [apply featNames_length|].
  intros m Hm Hex. rewrite (fitCART_nFeatures _ _ _ Hm), Hnext.
  destruct (X xy) as [|x0 Xs] eqn:E; [done|]. simpl. apply HX. left.
Qed.

Lemma length_omap_le {A B} (f : A → option B) (l : list A) :
  (length (omap f l) ≤ length l)%nat.
Proof.
  induction l as [|a l IH]; [done|]. csimpl. destruct (f a); simpl; lia.
Qed.

Lemma attempted_length d :
  length (attempted d) = (length (rows d) - 4)%nat.
Proof. unfold attempted. rewrite length_seqZ, maxLag_value. lia. Qed.

Lemma Xy_length_le `{Host} (df : option DataFrame) (tg : option string) :
  (length (X (Xy df tg)) ≤ match df with
                            | Some d => length (rows d) - 4
                            | None => 0
                            end)%nat.
Proof.
  unfold Xy. destruct df as [d|]; [|done]. destruct tg as [tg|]; [|simpl; lia].
  destruct (truthy (Some tg)); [|simpl; lia]. simpl.
  rewrite length_fmap, <-attempted_length. apply length_omap_le.
Qed.

Lemma complete_getNum `{Host} d c (t : Z) :
  complete_table d → c ∈ numericCols d →
  (0 ≤ t < Z.of_nat (length (rows d)))%Z →
  isFinite (getNum d t c) = true.
Proof.
  intros Hc Hin Ht. unfold getNum, atZ. rewrite decide_False by lia.
  destruct (lookup_lt_is_Some_2 (rows d) (Z.to_nat t)) as [r Hr]; [lia|].
  rewrite Hr. unfold complete_table in Hc. rewrite Forall_forall in Hc.
  specialize (Hc r (list_elem_of_lookup_2 _ _ _ Hr)).
  rewrite Forall_forall in Hc. specialize (Hc c Hin). unfold cell_finite in Hc.
  by destruct (r !! c) as [[| | |]|].
Qed.

Lemma datetime_slots_finite `{Host} d t :
  finite_host → Forall (λ v, isFinite v = true) (datetime_slots d t).
Proof.
  intros Hh. unfold datetime_slots. destruct (datetimeKey d) as [k|]; [|done].
  destruct (USE_DATETIME_FEATURES && truthy (Some k)); [|done].
  destruct (atZ (rows d) t ≫= _) as [[| [ms|] | |]|]; try by repeat constructor.
  destruct (getDateParts ms) as [weekday month].
  destruct (Hh weekday 7%Z) as [? ?]. destruct (Hh month 12%Z) as [? ?].
  by repeat constructor.
Qed.

Lemma complete_makeXAt `{Host} d tg (t : Z) :
  finite_host → complete_table d → tg ∈ numericCols d →
  (3 ≤ t < Z.of_nat (length (rows d)))%Z →
  Forall (λ v, isFinite v = true) (makeXAt d tg t).
Proof.
  intros Hh Hc Htg Ht. unfold makeXAt.
  assert (∀ c, c ∈ exo_of d tg → c ∈ numericCols d) as Hexo.
  { intros c Hin. by apply list_elem_of_filter in Hin as [_ ?]. }
  assert (∀ t', (0 ≤ t' < Z.of_nat (length (rows d)))%Z →
            Forall (λ v, isFinite v = true) (map (getNum d t') (exo_of d tg))) as Hrow.
  { intros t' Ht'. apply Forall_forall. intros v Hv.
    apply list_elem_of_fmap in Hv as (c & -> & Hin).
    apply complete_getNum; [done|by apply Hexo|done]. }
  apply Forall_app. split; [apply Hrow; lia|].
  apply Forall_app. split; [|by apply datetime_slots_finite].
  unfold LAGS. cbn [map concat]. rewrite app_nil_r.
  repeat first
    [ apply Forall_app; split
    | apply Forall_cons; split; [apply complete_getNum; [done|done|lia]|]
    | apply Hrow; lia ].
Qed.

Lemma complete_examples `{Host} d tg :
  finite_host → complete_table d → tg ∈ numericCols d →
  omap (example_at d tg) (attempted d)
  = (λ t, (makeXAt d tg t, getNum d (t + 1) tg)) <$> attempted d.
Proof.
  intros Hh Hc Htg. apply omap_total, Forall_forall. intros t Ht.
  apply attempted_elem in Ht. rewrite maxLag_value in Ht.
  unfold example_at.
  assert (existsb (λ v, negb (isFinite v)) (makeXAt d tg t) = false) as ->.
  { destruct (existsb _ _) eqn:E; [|done].
    apply existsb_exists in E as (v & Hv & Hn). apply list_elem_of_In in Hv.
    pose proof (complete_makeXAt d tg t Hh Hc Htg) as Hfin.
    rewrite Forall_forall in Hfin. rewrite Hfin in Hn; [done|lia|done]. }
  cbv zeta. rewrite (complete_getNum d tg (t + 1) Hc Htg) by lia. done.
Qed.

(** X9.  The assembler builds at most [N - 4] examples from a table of [N]
    rows, so [train] refuses every table of fewer than 24 rows.  When every
    numeric column holds a finite number in every row (and the host's sines
    and cosines are finite), it builds exactly [N - 4] examples, one for
    each position [3 .. N-2], none dropped. *)
Theorem example_count `{Host} (d : DataFrame) (tg : string) (s : State) :
  tg ≠ "" →
  let xy := Xy (Some d) (Some tg) in
  (length (X xy) ≤ length (rows d) - 4)%nat
  ∧ (df s = Some d → (length (rows d) < 24)%nat →
       ∃ s', train s = Some s' ∧ model s' = model s)
  ∧ (finite_host → complete_table d → tg ∈ numericCols d →
       length (X xy) = (length (rows d) - 4)%nat
       ∧ X xy = (λ t, makeXAt d tg t) <$> attempted d).
Proof.
  intros Hne xy. split; [apply (Xy_length_le (Some d) (Some tg))|]. split.
  - intros Hd Hrows. unfold train. rewrite Hd.
    destruct (truthy (target s)); [|by eexists].
    assert (length (X (Xy (Some d) (target s))) ≤ length (rows d) - 4)%nat as Hle
      by apply (Xy_length_le (Some d) (target s)).
    rewrite decide_True by lia. by eexists.
  - intros Hh Hc Htg.
    destruct (Xy_examples d tg Hne) as [HX _]. fold xy in HX.
    rewrite HX, (complete_examples d tg Hh Hc Htg), <-list_fmap_compose.
    split; [|done]. by rewrite length_fmap, attempted_length.
Qed.

(** ** Predicting *)

Lemma makeXAt_short `{Host} d tg (t : Z) :
  (t < 3)%Z → ¬ Forall (λ v, isFinite v = true) (makeXAt d tg t).
Proof.
  intros Ht Hfin. unfold makeXAt, LAGS in Hfin. cbn [map concat] in Hfin.
  apply Forall_app in Hfin as [_ Hfin]. apply Forall_app in Hfin as [Hfin _].
  rewrite app_nil_r in Hfin.
  apply Forall_cons in Hfin as [_ Hfin]. apply Forall_app in Hfin as [_ Hfin].
  apply Forall_cons in Hfin as [_ Hfin]. apply Forall_app in Hfin as [_ Hfin].
  apply Forall_cons in Hfin as [Hlag _].
  unfold getNum, atZ in Hlag. by rewrite decide_True in Hlag by lia.
Qed.

Lemma existsb_not_finite (x : list num) :
  existsb (λ v, negb (isFinite v)) x = false ↔ Forall (λ v, isFinite v = true) x.
Proof.
  induction x as [|v x IH]; simpl; [by split; [constructor|]|].
  rewrite orb_false_iff, IH, Forall_cons.
  destruct (isFinite v); simpl; intuition congruence.
Qed.

(** A branch of [predict] that only sets the status. *)
Ltac refused :=
  split; [done|]; split; [done|]; split; [done|]; split; [by left|]; done.

(** X10.  [predict] never changes the table, the target or the model.  It
    stores a prediction only when a model is held and the vector of the
    last row is non-empty with every slot finite, and the value stored is
    the one the held model's tree returns on that vector; otherwise the
    prediction is left as it was.  With fewer than four rows the oldest lag
    is missing and [predict] always refuses. *)
Theorem predict_outcome `{Host} (s : State) :
  let s' := predict s in
  df s' = df s ∧ target s' = target s ∧ model s' = model s
  ∧ (prediction s' = prediction s
     ∨ ∃ d m tg,
         df s = Some d ∧ model s = Some m ∧ target s = Some tg ∧ tg ≠ ""
         ∧ makeXAt d tg (Z.of_nat (length (rows d)) - 1) ≠ []
         ∧ Forall (λ v, isFinite v = true)
                  (makeXAt d tg (Z.of_nat (length (rows d)) - 1))
         ∧ prediction s'
           = Some (predictTree (root m)
                     (makeXAt d tg (Z.of_nat (length (rows d)) - 1))))
  ∧ (∀ d, df s = Some d → (length (rows d) < 4)%nat →
       prediction s' = prediction s).
Proof.
  intros s'. unfold s', predict.
  destruct (df s) as [d|] eqn:Ed; [|refused].
  destruct (model s) as [m|] eqn:Em; [|refused].
  destruct (target s) as [tg|] eqn:Etg; [|refused].
  destruct (truthy (Some tg)) eqn:Et; [|refused].
  assert (tg ≠ "") as Hne by (by apply bool_decide_eq_true in Et).
  assert (makeNextX (Xy (Some d) (Some tg))
          = makeXAt d tg (Z.of_nat (length (rows d)) - 1)) as ->.
  { unfold Xy. by rewrite Et. }
  set (x := makeXAt d tg (Z.of_nat (length (rows d)) - 1)).
  destruct (bool_decide (x = []) || existsb (λ v, negb (isFinite v)) x) eqn:E.
  - refused.
  - apply orb_false_iff in E as [Hnil Hfin].
    apply bool_decide_eq_false in Hnil. apply existsb_not_finite in Hfin.
    simpl. split; [done|]. split; [done|]. split; [done|]. split.
    + right. exists d, m, tg. by repeat split.
    + intros d' [= <-] Hrows. exfalso.
      apply (makeXAt_short d tg (Z.of_nat (length (rows d)) - 1)); [lia|done].
Qed.

(** ** The life cycle of the screen *)

Import Lifecycle.

Lemma train_result `{Host} (s : State) :
  ∃ s', train s = Some s' ∧ df s' = df s
    ∧ ((model s' = model s ∧ prediction s' = prediction s)
       ∨ (is_Some (model s') ∧ prediction s' = None ∧ is_Some (df s))).
Proof.
  unfold train. destruct (df s) as [d|] eqn:Ed;
    [|eexists; split; [reflexivity|]; split; [done|by left]].
  destruct (truthy (target s)) eqn:Et;
    [|eexists; split; [reflexivity|]; split; [done|by left]].
  case_decide as Hlt;
    [eexists; split; [reflexivity|]; split; [done|by left]|].
  destruct (target s) as [tg|] eqn:Etg; [|done].
  assert (tg ≠ "") as Hne by (by apply bool_decide_eq_true in Et).
  destruct (Xy_examples d tg Hne) as [HX Hy]. unfold fitCART. rewrite HX, Hy.
  destruct (buildCART_total (omap (example_at d tg) (attempted d)) 0 4 8) as (t & ->).
  simpl. eexists. split; [reflexivity|]. split; [done|]. right. by repeat split.
Qed.

Lemma predict_step_facts `{Host} (s : State) :
  df (predict s) = df s ∧ model (predict s) = model s
  ∧ (prediction (predict s) = prediction s ∨ is_Some (model s)).
Proof.
  unfold predict. destruct (df s) as [d|]; [|by repeat split; left].
  destruct (model s) as [m|]; [|by repeat split; left].
  destruct (truthy (target s)); [|by repeat split; left].
  destruct (_ || _); by repeat split; right.
Qed.

(** X11.  Whatever files are loaded, targets chosen and buttons pressed,
    in whatever order, no step throws, and the screen never shows a
    prediction without holding a model nor holds a model without a table;
    loading a file always discards the model and the prediction. *)
Theorem lifecycle_invariant `{Host} (events : list event) :
  ∃ s, run events initial = Some s
    ∧ (is_Some (prediction s) → is_Some (model s))
    ∧ (is_Some (model s) → is_Some (df s))
    ∧ (∀ parsed, ∃ s',
         run (events ++ [Load parsed]) initial = Some s'
         ∧ model s' = None ∧ prediction s' = None ∧ df s' = Some parsed
         ∧ target s' = head (numericCols parsed)).
Proof.
  assert (∃ s, run events initial = Some s
            ∧ (is_Some (prediction s) → is_Some (model s))
            ∧ (is_Some (model s) → is_Some (df s))) as (s & Hrun & H1 & H2).
  { induction events as [|e events IH] using rev_ind.
    - exists initial. repeat split; by intros [? ?].
    - destruct IH as (s & Hrun & H1 & H2). unfold run in *.
      rewrite foldl_snoc, Hrun. cbn [mbind option_bind].
      destruct e as [parsed|tg| |]; simpl.
      + eexists. split; [done|]. simpl. split; [by intros [? ?]|by eexists].
      + eexists. split; [done|]. by simpl.
      + destruct (train_result s) as (s' & -> & Hd & [[Hm Hp]|(Hm & Hp & Hdf)]).
        * exists s'. rewrite Hm, Hp, Hd. done.
        * exists s'. rewrite Hp, Hd. split; [done|]. split; [by intros [? ?]|done].
      + destruct (predict_step_facts s) as (Hd & Hm & Hp).
        eexists. split; [done|]. rewrite Hd, Hm. split; [|done].
        intros Hsome. destruct Hp as [Hp|Hp]; [rewrite Hp in Hsome; by apply H1|done]. }
  exists s. split; [done|]. split; [done|]. split; [done|].
  intros parsed. exists (loaded parsed s). unfold run in *.
  by rewrite foldl_snoc, Hrun.
Qed.


(** ** Splitting a CSV line *)

Import Csv.

Lemma append_cons c s t : String c s +:+ t = String c (s +:+ t).
Proof. done. Qed.

Lemma append_nil_l t : "" +:+ t = t.
Proof. done. Qed.

Lemma append_nil_r s : s +:+ "" = s.
Proof. induction s as [|c s IH]; [done|]. by rewrite append_cons, IH. Qed.

Lemma append_assoc s t u : (s +:+ t) +:+ u = s +:+ (t +:+ u).
Proof. induction s as [|c s IH]; [done|]. by rewrite !append_cons, IH. Qed.

Lemma push_char_append cur c rest : push_char cur c +:+ rest = cur +:+ String c rest.
Proof. unfold push_char. by rewrite append_assoc, append_cons, append_nil_l. Qed.

Lemma split_commas_nonempty s cur : split_commas s cur ≠ [].
Proof.
  revert cur. induction s as [|c s IH]; intros cur; simpl; [done|].
  case_bool_decide; [done|apply IH].
Qed.

Lemma join_commas_cons a parts :
  parts ≠ [] → join_commas (a :: parts) = a +:+ String comma "" +:+ join_commas parts.
Proof. by destruct parts. Qed.

Lemma join_split_commas s cur : join_commas (split_commas s cur) = cur +:+ s.
Proof.
  revert cur. induction s as [|c s IH]; intros cur; simpl.
  - by rewrite append_nil_r.
  - case_bool_decide as Hc.
    + rewrite join_commas_cons by apply split_commas_nonempty.
      rewrite IH, append_nil_l, Hc. done.
    + by rewrite IH, push_char_append.
Qed.

Lemma split_loop_no_quote rest prev out cur :
  quote ∉ list_ascii_of_string rest →
  let '(out', cur') := split_loop rest prev out cur false in
  out' ++ [cur'] = out ++ split_commas rest cur.
Proof.
  revert prev out cur. induction rest as [|c rest IH]; intros prev out cur Hq; simpl.
  - done.
  - simpl in Hq. apply not_elem_of_cons in Hq as [Hc Hq].
    rewrite (bool_decide_eq_false_2 (c = quote)) by done. simpl.
    case_bool_decide as Hcomma; simpl.
    + specialize (IH (Some c) (out ++ [cur]) "" Hq).
      destruct (split_loop rest (Some c) (out ++ [cur]) "" false) as [out' cur'].
      rewrite IH, <-app_assoc. done.
    + by apply IH.
Qed.

Lemma split_loop_length rest prev out cur inQuotes :
  (length out ≤ length (split_loop rest prev out cur inQuotes).1)%nat.
Proof.
  revert prev out cur inQuotes.
  induction rest as [|c rest IH]; intros prev out cur inQuotes; simpl; [done|].
  destruct (_ && _); [apply IH|].
  destruct (_ && _); [|apply IH].
  etrans; [|apply IH]. rewrite length_app. simpl. lia.
Qed.

(** X12.  [splitCsvLine] always returns at least one field and at least
    [nCols] fields, so every header index finds a field.  On a line without
    double quotes it returns exactly the pieces between the commas, the
    same as the [split(",")] used for the header, padded with empty fields;
    joining the unpadded fields with commas gives the line back. *)
Theorem splitCsvLine_fields (line : string) (nCols : nat) :
  (1 ≤ length (splitCsvLine line nCols))%nat
  ∧ (nCols ≤ length (splitCsvLine line nCols))%nat
  ∧ (∀ idx, (idx < nCols)%nat → is_Some (splitCsvLine line nCols !! idx))
  ∧ (quote ∉ list_ascii_of_string line →
       splitCsvLine line 0 = split_commas line ""
       ∧ splitCsvLine line nCols
         = split_commas line ""
           ++ replicate (nCols - length (split_commas line "")) ""
       ∧ join_commas (splitCsvLine line 0) = line).
Proof.
  assert (1 ≤ length (splitCsvLine line nCols)
          ∧ nCols ≤ length (splitCsvLine line nCols))%nat as [H1 H2].
  { unfold splitCsvLine. destruct (split_loop line None [] "" false) as [out cur].
    rewrite !length_app, length_replicate. simpl. lia. }
  split; [done|]. split; [done|].
  split; [intros idx Hidx; apply lookup_lt_is_Some_2; lia|].
  intros Hq. pose proof (split_loop_no_quote line None [] "" Hq) as Hsplit.
  unfold splitCsvLine. destruct (split_loop line None [] "" false) as [out cur].
  simpl in Hsplit. rewrite Hsplit. split; [|split; [done|]].
  - simpl. by rewrite app_nil_r.
  - simpl. by rewrite app_nil_r, join_split_commas.
Qed.

(** ** Cells and rows of a parsed CSV *)

Section parsing_facts.
Context `{Parsers}.

Lemma coerce_well_formed v : well_formed_cell (coerce v).
Proof.
  unfold coerce, well_formed_cell. destruct v as [v|]; [|done].
  cbv zeta. case_bool_decide as Ht; [done|].
  assert (∀ n, (if isNaN n then CString (trim v) else CNumber n) ≠ CDate None
             ∧ (if isNaN n then CString (trim v) else CNumber n) ≠ CNumber NaN
             ∧ (if isNaN n then CString (trim v) else CNumber n) ≠ CString "")
    as Hnum.
  { intros n. unfold NaN. destruct n; simpl; repeat split; congruence. }
  destruct (parseDate (trim v)) as [ms|]; [|apply Hnum].
  destruct (date_like (trim v)); [done|apply Hnum].
Qed.

Lemma parse_row_fold (parts : list string) (l : list (nat * string))
    (m : gmap string Cell) :
  dom (foldl (λ row p, assign row p.2 (coerce (parts !! p.1))) m l)
    = dom m ∪ list_to_set (filter (λ h, h ≠ "__proto__") l.*2)
  ∧ (map_Forall (λ _ c, well_formed_cell c) m →
     map_Forall (λ _ c, well_formed_cell c)
       (foldl (λ row p, assign row p.2 (coerce (parts !! p.1))) m l)).
Proof.
  revert m. induction l as [|[idx h] l IH]; intros m; simpl.
  - split; [|done]. by rewrite (right_id_L ∅ (∪)).
  - destruct (IH (assign m h (coerce (parts !! idx)))) as [IHd IHw].
    unfold assign in *. case_bool_decide as Hproto.
    + split; [|done]. rewrite IHd. by rewrite filter_cons_False by (by intros ?).
    + split.
      * rewrite IHd, dom_insert_L, filter_cons_True by done. simpl.
        by rewrite (comm_L (∪) {[h]} (dom m)), <-(assoc_L (∪)).
      * intros Hm. apply IHw. apply map_Forall_insert_2; [|done].
        apply coerce_well_formed.
Qed.



Lemma parse_row_cells header line h c :
  parse_row header line !! h = Some c → well_formed_cell c.
Proof.
  unfold parse_row. destruct (parse_row_fold
    (splitCsvLine line (length header)) (zip (seq 0 (length header)) header) ∅)
    as [_ Hw].
  intros Hc. eapply (Hw (map_Forall_empty _)). exact Hc.
Qed.


Lemma parseCSV_well_formed (text : string) r h c :
  r ∈ rows (parseCSV text) → r !! h = Some c → well_formed_cell c.
Proof.
  unfold parseCSV. destruct (csv_lines text) as [|header_line [|line1 body]];
    [intros Hr; by apply elem_of_nil in Hr..|].
  cbv zeta. unfold detect. cbn [rows]. intros Hr Hc.
  apply list_elem_of_fmap in Hr as (line & -> & _).
  by eapply parse_row_cells.
Qed.

(** X14.  No cell of a table parsed from CSV text is an invalid Date, a
    NaN number or an empty string; blank fields become null. *)
Theorem parseCSV_cells (text : string) :
  (∀ r h c, r ∈ rows (parseCSV text) → r !! h = Some c →
     c ≠ CDate None ∧ c ≠ CNumber NaN ∧ c ≠ CString "")
  ∧ (∀ k, dates_valid k (rows (parseCSV text)))
  ∧ (∀ v, trim v = "" → coerce (Some v) = CNull)
  ∧ coerce None = CNull.
Proof.
  assert (∀ r h c, r ∈ rows (parseCSV text) → r !! h = Some c →
            well_formed_cell c) as Hcells
    by (intros r h c; apply parseCSV_well_formed).
  split; [exact Hcells|]. split; [|split; [|done]].
  - intros k. apply Forall_forall. intros r Hr Hk.
    by destruct (Hcells r k _ Hr Hk) as [? _].
  - intros v Hv. unfold coerce. cbv zeta. by rewrite bool_decide_eq_true_2.
Qed.

End parsing_facts.

(** ** Schema detection *)

Lemma names_time_nonempty h : names_time h → h ≠ "".
Proof. intros Hn ->. by destruct Hn as [?|[?|?]]. Qed.

(** X15.  The schema detected for a table keeps the columns and rows as
    given.  The timestamp column, when there is one, is the first column
    named [datetime], [date] or [time] (in any case); it is never a numeric
    column.  The numeric columns are columns of the table, in the table's
    order; each holds a number in at least one row and in at least
    [floor(N/2)] of the [N] rows, so a table without rows has none. *)
Theorem detect_schema (cols : list string) (rws : list (gmap string Cell)) :
  let d := detect cols rws in
  let count h := length (filter (λ r, is_number r h = true) rws) in
  columns d = cols ∧ rows d = rws
  ∧ sublist (numericCols d) cols
  ∧ (∀ h, h ∈ numericCols d ↔
       h ∈ cols ∧ datetimeKey d ≠ Some h
       ∧ (1 ≤ count h)%nat ∧ (length rws / 2 ≤ count h)%nat)
  ∧ (∀ k, datetimeKey d = Some k ↔
       ∃ i, cols !! i = Some k ∧ names_time k
          ∧ ∀ j h, cols !! j = Some h → (j < i)%nat → ¬ names_time h)
  ∧ (∀ k, datetimeKey d = Some k → k ≠ "" ∧ k ∉ numericCols d)
  ∧ (datetimeKey d = None ↔ ∀ h, h ∈ cols → ¬ names_time h)
  ∧ (rws = [] → numericCols d = []).
Proof.
  intros d count.
  assert (∀ k, datetimeKey d = Some k ↔
            ∃ i, cols !! i = Some k ∧ names_time k
               ∧ ∀ j h, cols !! j = Some h → (j < i)%nat → ¬ names_time h) as Hkey.
  { intros k. unfold d, detect. cbn [datetimeKey]. split.
    - destruct (list_find names_time cols) as [[i k']|] eqn:E; [|done].
      intros [= <-]. apply list_find_Some in E. by exists i.
    - intros (i & Hi & Hn & Hfirst).
      assert (list_find names_time cols = Some (i, k)) as ->; [|done].
      apply list_find_Some. done. }
  assert (∀ k, datetimeKey d = Some k → truthy (datetimeKey d) = true) as Htruthy.
  { intros k Hk. rewrite Hk. simpl. apply bool_decide_eq_true_2.
    apply Hkey in Hk as (_ & _ & Hn & _). by apply names_time_nonempty. }
  assert (∀ h, h ∈ numericCols d ↔
            h ∈ cols ∧ datetimeKey d ≠ Some h
            ∧ (1 ≤ count h)%nat ∧ (length rws / 2 ≤ count h)%nat) as Hnum.
  { intros h. unfold d at 1, detect. cbn [numericCols].
    rewrite list_elem_of_filter.
    change (list_find names_time cols ≫= (λ p, Some p.2)) with (datetimeKey d).
    fold (count h). split.
    - intros [[Hnot Hcount] Hin]. split; [done|]. split; [|lia].
      intros Hk. apply Hnot. split; [by eapply Htruthy|done].
    - intros (Hin & Hk & H1 & H2). split; [|done]. split; [|lia].
      intros [_ Heq]. by apply Hk. }
  split; [done|]. split; [done|]. split; [apply sublist_filter|].
  split; [done|]. split; [done|]. split; [|split].
  - intros k Hk. split.
    + apply Hkey in Hk as (_ & _ & Hn & _). by apply names_time_nonempty.
    + intros Hin. apply Hnum in Hin as (_ & Hne & _). done.
  - unfold d, detect. cbn [datetimeKey]. split.
    + destruct (list_find names_time cols) as [[i k']|] eqn:E; [done|].
      intros _ h Hh. apply list_find_None in E. rewrite Forall_forall in E.
      by apply E.
    + intros Hnone.
      assert (list_find names_time cols = None) as ->; [|done].
      apply list_find_None, Forall_forall. done.
  - intros Hrws.
    assert (∀ h, h ∈ numericCols d → False) as Hno.
    { intros h Hh. apply Hnum in Hh as (_ & _ & H1 & _). unfold count in H1.
      rewrite Hrws in H1. simpl in H1. lia. }
    destruct (numericCols d) as [|h l]; [done|]. exfalso. apply (Hno h). left.
Qed.

(** ** Colours and series toggles *)

Import Chips.

(** X16.  [colorFor] returns a palette colour for every index from 0 up,
    the same colour for indices 15 apart, and pairwise different colours
    for the first 15 series. *)
Theorem colorFor_cycle :
  (∀ idx, (0 ≤ idx)%Z →
     is_Some (colorFor idx) ∧ colorFor (idx + 15) = colorFor idx)
  ∧ (∀ i j, (0 ≤ i < 15)%Z → (0 ≤ j < 15)%Z →
       colorFor i = colorFor j → i = j)
  ∧ (∀ idx c, colorFor idx = Some c → c ∈ PALETTE).
Proof.
  assert (NoDup PALETTE) as Hnd by compute_done.
  assert (length PALETTE = 15%nat) as Hlen by done.
  split; [|split].
  - intros idx Hidx. unfold colorFor. rewrite Hlen. split.
    + unfold atZ. rewrite decide_False by (apply Zle_not_lt, Z.rem_nonneg; lia).
      apply lookup_lt_is_Some_2. rewrite Hlen.
      pose proof (Z.rem_bound_pos idx 15). lia.
    + f_equal. rewrite !Z.rem_mod_nonneg by lia.
      replace (idx + 15)%Z with (idx + 1 * 15)%Z by lia. by rewrite Z.mod_add.
  - intros i j Hi Hj. unfold colorFor, atZ. rewrite Hlen.
    rewrite !Z.rem_small by lia. rewrite !decide_False by lia.
    intros Heq.
    destruct (lookup_lt_is_Some_2 PALETTE (Z.to_nat i)) as [c Hc]; [rewrite Hlen; lia|].
    rewrite Hc in Heq. symmetry in Heq.
    pose proof (NoDup_lookup _ _ _ _ Hnd Hc Heq). lia.
  - intros idx c. unfold colorFor, atZ. case_decide; [done|].
    apply list_elem_of_lookup_2.
Qed.

Lemma toggle_lookup key vis s :
  toggleSeries key vis !! s
  = if decide (key = s) then Some (negb (default false (vis !! key))) else vis !! s.
Proof. unfold toggleSeries. apply lookup_insert. Qed.

Lemma all_visible_lookup cols (vis : gmap string bool) s :
  s ∈ cols → is_Some (foldl (λ vis c, <[c := true]> vis) vis cols !! s).
Proof.
  assert (∀ cols (vis : gmap string bool),
            is_Some (vis !! s) →
            is_Some (foldl (λ vis c, <[c := true]> vis) vis cols !! s)) as Hkeep.
  { clear. intros cols. induction cols as [|c cols IH]; intros vis Hs; [done|].
    simpl. apply IH. rewrite lookup_insert_is_Some. destruct (decide (c = s)); auto. }
  revert vis. induction cols as [|c cols IH]; intros vis Hin.
  - by apply elem_of_nil in Hin.
  - simpl. apply elem_of_cons in Hin as [->|Hin]; [|by apply IH].
    apply Hkeep. rewrite lookup_insert_eq. by eexists.
Qed.

(** X17.  After a file is loaded, and after any sequence of toggles, the
    chip of every numeric series and its line in the chart agree (both on
    or both off).  A toggle flips the line of its series and touches no
    other series; two toggles of one series restore its line. *)
Theorem chips_match_lines (numericCols : list string) (keys : list string) :
  let vis := foldl (λ vis key, toggleSeries key vis) (all_visible numericCols) keys in
  (∀ s, s ∈ numericCols → chip_on vis s = line_drawn vis s)
  ∧ (∀ s, s ∈ numericCols → keys = [] → line_drawn vis s = true)
  ∧ (∀ (v : gmap string bool) key,
       line_drawn (toggleSeries key v) key = negb (line_drawn v key))
  ∧ (∀ (v : gmap string bool) key s, s ≠ key → toggleSeries key v !! s = v !! s)
  ∧ (∀ (v : gmap string bool) key s,
       line_drawn (toggleSeries key (toggleSeries key v)) s = line_drawn v s).
Proof.
  intros vis.
  assert (∀ s, s ∈ numericCols → is_Some (vis !! s)) as Hdom.
  { intros s Hs. unfold vis.
    assert (is_Some (all_visible numericCols !! s)) as H0
      by (by apply all_visible_lookup).
    revert H0. generalize (all_visible numericCols).
    induction keys as [|key keys IH]; intros v Hv; [done|].
    simpl. apply IH. rewrite toggle_lookup. case_decide; [by eexists|done]. }
  split; [|split; [|split; [|split]]].
  - intros s Hs. unfold chip_on, line_drawn. by destruct (Hdom s Hs) as [b ->].
  - intros s Hs ->. unfold vis, line_drawn, all_visible. simpl.
    assert (∀ cols (v : gmap string bool),
              (∀ b, v !! s = Some b → b = true) →
              ∀ b, foldl (λ vis c, <[c := true]> vis) v cols !! s = Some b → b = true)
      as Htrue.
    { clear. intros cols. induction cols as [|c cols IH]; intros v Hv b; [apply Hv|].
      simpl. apply IH. intros b'. rewrite lookup_insert. case_decide; [|apply Hv].
      by intros [= <-]. }
    destruct (all_visible_lookup numericCols ∅ s Hs) as [b Hb]. rewrite Hb. simpl.
    eapply (Htrue numericCols ∅); [|done]. intros b'. by rewrite lookup_empty.
  - intros v key. unfold line_drawn. rewrite toggle_lookup.
    by rewrite decide_True.
  - intros v key s Hne. rewrite toggle_lookup. by rewrite decide_False.
  - intros v key s. unfold line_drawn. rewrite !toggle_lookup.
    case_decide as E; [|done]. subst s. simpl.
    rewrite decide_True by done. simpl. by rewrite negb_involutive.
Qed.


(** ** The earlier lag-1 builder *)

Import Lag1.

Lemma nums_lookup cols r j c :
  cols !! j = Some c →
  nums cols r !! j = Some (match r !! c with Some (CNumber v) => v | _ => NaN end).
Proof. intros Hj. unfold nums. by rewrite list_lookup_fmap, Hj. Qed.

Lemma pair_example_Some `{Parsers} cols target prev cur x lbl :
  pair_example cols target prev cur = Some (x, lbl) →
  x = nums cols cur ++ nums cols prev
  ∧ Forall (λ v, isFinite v = true) x
  ∧ cur !! target = Some lbl.
Proof.
  unfold pair_example.
  destruct (existsb _ (nums cols cur) || existsb _ (nums cols prev)) eqn:E; [done|].
  apply orb_false_iff in E as [E1 E2].
  apply existsb_not_finite in E1, E2.
  destruct (cur !! target) as [label|]; [|done].
  destruct (label_finite (Some label)); [|done].
  intros [= <- <-]. split; [done|]. split; [by apply Forall_app|done].
Qed.

(** X18.  Every example that the earlier builder [buildSupervised] emits
    comes from two consecutive rows of the time-ordered sequence: its
    vector holds the current row's numeric columns followed by the previous
    row's, all finite, so it has width [2·|numericCols|], and there are at
    most as many examples as such pairs.  The label is the target's cell of
    the {e current} row: when the target is a numeric column the label is
    the very number stored in the vector at the target's own position. *)
Theorem lag1_examples `{Parsers} `{Supervised.Engine}
    (d : DataFrame) (target : string) :
  let '(X, y, rows) := buildSupervised d target in
  rows = Supervised.orderedRows d
  ∧ length X = length y
  ∧ (length X ≤ length rows - 1)%nat
  ∧ (∀ x, x ∈ X →
       length x = (2 * length (numericCols d))%nat
       ∧ Forall (λ v, isFinite v = true) x)
  ∧ (∀ i x lbl, X !! i = Some x → y !! i = Some lbl →
       ∃ k prev cur, rows !! k = Some prev ∧ rows !! S k = Some cur
         ∧ x = nums (numericCols d) cur ++ nums (numericCols d) prev
         ∧ cur !! target = Some lbl)
  ∧ (∀ j, numericCols d !! j = Some target →
       ∀ i x lbl, X !! i = Some x → y !! i = Some lbl →
         ∃ v, isFinite v = true ∧ lbl = CNumber v ∧ x !! j = Some v).
Proof.
  unfold buildSupervised. cbv zeta.
  set (rows := Supervised.orderedRows d).
  set (ex := omap _ (zip rows (tail rows))).
  assert (∀ i x lbl, ex.*1 !! i = Some x → ex.*2 !! i = Some lbl →
            ∃ k prev cur, rows !! k = Some prev ∧ rows !! S k = Some cur
              ∧ pair_example (numericCols d) target prev cur = Some (x, lbl)) as Hex.
  { intros i x lbl Hx Hl.
    rewrite list_lookup_fmap in Hx. rewrite list_lookup_fmap in Hl.
    destruct (ex !! i) as [[x' lbl']|] eqn:E; [|done].
    simpl in Hx, Hl. injection Hx as <-. injection Hl as <-.
    apply list_elem_of_lookup_2 in E. unfold ex in E.
    apply list_elem_of_omap in E as ([prev cur] & Hin & Hp).
    apply list_elem_of_lookup in Hin as (k & Hk).
    apply lookup_zip_with_Some in Hk as (a & b & [= <- <-] & Ha & Hb).
    rewrite lookup_tail in Hb. by exists k, prev, cur. }
  split; [done|]. split; [by rewrite !length_fmap|]. split.
  { rewrite length_fmap. etrans; [apply length_omap_le|].
    rewrite length_zip. destruct rows as [|r rs]; [simpl; lia|].
    cbn [tail length]. lia. }
  split; [|split].
  - intros x Hx. apply list_elem_of_fmap in Hx as ([x' lbl] & -> & Hin).
    apply list_elem_of_omap in Hin as ([prev cur] & _ & Hp).
    apply pair_example_Some in Hp as (-> & Hfin & _). split; [|done].
    simpl. unfold nums. rewrite length_app, !length_map. lia.
  - intros i x lbl Hx Hl.
    destruct (Hex i x lbl Hx Hl) as (k & prev & cur & Hp & Hc & Hpair).
    apply pair_example_Some in Hpair as (-> & _ & Htg).
    by exists k, prev, cur.
  - intros j Hj i x lbl Hx Hl.
    destruct (Hex i x lbl Hx Hl) as (k & prev & cur & _ & _ & Hpair).
    apply pair_example_Some in Hpair as (-> & Hfin & Htg).
    apply Forall_app in Hfin as [Hcur _].
    pose proof (nums_lookup (numericCols d) cur j target Hj) as Hslot.
    rewrite Htg in Hslot.
    rewrite Forall_forall in Hcur.
    pose proof (Hcur _ (list_elem_of_lookup_2 _ _ _ Hslot)) as Hf.
    destruct lbl as [v| | |]; try done.
    exists v. split; [done|]. split; [done|]. by apply lookup_app_l_Some.
Qed.

(** ** Training, then predicting *)

(** X19.  On a table of at least 24 rows whose numeric columns hold a
    finite number in every row (the host's sines and cosines being
    finite), with a numeric column chosen as target: [train] does not
    throw, fits a model on the [N - 4] examples of the table, stores it
    with the assembler's width and clears the prediction; [predict],
    pressed next, does not refuse and stores the value the new tree
    returns on the last row's vector. *)
Theorem train_then_predict `{Host} (d : DataFrame) (tg : string) (s : State) :
  finite_host → complete_table d → tg ∈ numericCols d → tg ≠ "" →
  (24 ≤ length (rows d))%nat →
  df s = Some d → target s = Some tg →
  ∃ s1 m v,
    train s = Some s1
    ∧ fitCART (X (Xy (Some d) (Some tg))) (y (Xy (Some d) (Some tg))) = Some m
    ∧ length (X (Xy (Some d) (Some tg))) = (length (rows d) - 4)%nat
    ∧ model s1 = Some m
    ∧ nFeatures m = width_of d tg
    ∧ prediction s1 = None
    ∧ prediction (predict s1) = Some v
    ∧ v = predictTree (root m) (makeXAt d tg (Z.of_nat (length (rows d)) - 1)).
Proof.
  intros Hh Hc Htg Hne Hrows Hd Ht.
  destruct (Xy_examples d tg Hne) as [HX Hy].
  set (ex := omap (example_at d tg) (attempted d)) in *.
  assert (length ex = (length (rows d) - 4)%nat) as Hlen.
  { unfold ex. rewrite (complete_examples d tg Hh Hc Htg), length_fmap.
    apply attempted_length. }
  assert (ex ≠ []) as Hex.
  { intros E. rewrite E in Hlen. simpl in Hlen. lia. }
  destruct (buildCART_total ex 0 4 8) as (t & Hbuild).
  assert (length (X (Xy (Some d) (Some tg))) = (length (rows d) - 4)%nat) as HlenX.
  { by rewrite HX, length_fmap. }
  assert (nFeat_of ex.*1 = width_of d tg) as Hw.
  { destruct ex as [|[x0 l0] ex'] eqn:E; [done|]. simpl.
    assert ((x0, l0) ∈ omap (example_at d tg) (attempted d)) as Hin.
    { fold ex. rewrite E. left. }
    apply list_elem_of_omap in Hin as (t0 & _ & Hex0).
    apply example_at_Some in Hex0 as (-> & _). apply makeXAt_length. }
  set (x := makeXAt d tg (Z.of_nat (length (rows d)) - 1)).
  assert (Forall (λ v, isFinite v = true) x) as Hfin.
  { apply complete_makeXAt; [done..|lia]. }
  assert (x ≠ []) as Hx.
  { intros E. pose proof (makeXAt_length d tg (Z.of_nat (length (rows d)) - 1)) as Hl.
    fold x in Hl. rewrite E in Hl. unfold width_of in Hl. simpl in Hl. lia. }
  assert (fitCART (X (Xy (Some d) (Some tg))) (y (Xy (Some d) (Some tg)))
          = Some (MkModel (nFeat_of ex.*1) t)) as Hfit.
  { unfold fitCART. rewrite HX, Hy, Hbuild. done. }
  exists (MkState (Some d) (Some tg) (Some (MkModel (nFeat_of ex.*1) t)) None
            ("Trained CART with " +:+ pretty (nFeat_of ex.*1)
             +:+ " features on " +:+ pretty (length ex.*1) +:+ " rows.")),
         (MkModel (nFeat_of ex.*1) t), (predictTree t x).
  split.
  { unfold train. rewrite Hd, Ht. unfold truthy.
    rewrite bool_decide_eq_true_2 by done.
    rewrite decide_False by lia.
    rewrite Hfit, HX. done. }
  split; [done|]. split; [done|]. split; [done|]. split; [done|].
  split; [done|]. split; [|done].
  unfold predict. cbn [df model target]. unfold truthy.
  rewrite bool_decide_eq_true_2 by done.
  assert (makeNextX (Xy (Some d) (Some tg)) = x) as ->.
  { unfold Xy, truthy. by rewrite bool_decide_eq_true_2. }
  rewrite bool_decide_eq_false_2 by done.
  apply existsb_not_finite in Hfin. rewrite Hfin. done.
Qed.

(** ** The points handed to the chart *)

Import Chart.





(** ** The properties above at sample inputs *)

Lemma ex20_nonempty : Samples.ex20 ≠ [].
Proof. done. Defined.

Lemma min_leaf_positive : (0 < 8)%nat.
Proof. lia. Defined.

Lemma prediction_is_cell_mean_witness :
  (0 < 8)%nat ∧ Samples.ex20 ≠ []
  ∧ ∃ t, buildCART Samples.ex20.*1 Samples.ex20.*2 0 4 8 = Some t
      ∧ (∀ x, co_routed t x Samples.ex20 ≠ []
            ∧ predictTree t x = mean (co_routed t x Samples.ex20).*2
            ∧ ∀ e, e ∈ co_routed t x Samples.ex20 → e ∈ Samples.ex20)
      ∧ (∀ e, e ∈ Samples.ex20 → e ∈ co_routed t e.1 Samples.ex20).
Proof.
  split; [exact min_leaf_positive|]. split; [exact ex20_nonempty|].
  exact (prediction_is_cell_mean Samples.ex20 0 4 8 min_leaf_positive ex20_nonempty).
Defined.

Lemma splits_use_observed_values_witness :
  finite_rows 1 Samples.ex20
  ∧ ∃ t, buildCART Samples.ex20.*1 Samples.ex20.*2 0 4 8 = Some t
      ∧ Forall (λ s : Z * num,
                  (0 ≤ s.1 < Z.of_nat 1)%Z
                  ∧ (∃ e, e ∈ Samples.ex20 ∧ slotZ e.1 s.1 = s.2)
                  ∧ ∀ x : list num, length x = 1%nat → is_Some (x !! Z.to_nat s.1))
               (splits t).
Proof.
  split; [exact ex20_finite_rows|].
  exact (splits_use_observed_values 1 Samples.ex20 0 4 8 ex20_finite_rows).
Defined.

Lemma target_a_named : "a" ≠ "".
Proof. done. Defined.

Lemma feature_width_witness :
  "a" ≠ ""
  ∧ (let d := Samples.df_plain 24 in
     let xy := @Xy Samples.utc_host (Some d) (Some "a") in
     (∀ x, x ∈ X xy → length x = width_of d "a")
     ∧ length (makeNextX xy) = width_of d "a"
     ∧ length (featNames d "a") = width_of d "a"
     ∧ (∀ m, fitCART (X xy) (y xy) = Some m → X xy ≠ [] →
          nFeatures m = length (makeNextX xy))).
Proof.
  split; [exact target_a_named|].
  exact (@feature_width Samples.utc_host (Samples.df_plain 24) "a" target_a_named).
Defined.

Lemma example_count_witness :
  "a" ≠ ""
  ∧ (let d := Samples.df_plain 24 in
     let s := Samples.state20 in
     let xy := @Xy Samples.utc_host (Some d) (Some "a") in
     (length (X xy) ≤ length (rows d) - 4)%nat
     ∧ (df s = Some d → (length (rows d) < 24)%nat →
          ∃ s', @train Samples.utc_host s = Some s' ∧ model s' = model s)
     ∧ (@finite_host Samples.utc_host → complete_table d → "a" ∈ numericCols d →
          length (X xy) = (length (rows d) - 4)%nat
          ∧ X xy = (λ t, @makeXAt Samples.utc_host d "a" t) <$> attempted d)).
Proof.
  split; [exact target_a_named|].
  exact (@example_count Samples.utc_host (Samples.df_plain 24) "a" Samples.state20
           target_a_named).
Defined.

Lemma utc_host_finite : @finite_host Samples.utc_host.
Proof. intros value period. split; reflexivity. Defined.

Lemma df_plain_complete : complete_table (Samples.df_plain 24).
Proof. unfold complete_table. compute_done. Defined.

Lemma df_plain_target : "a" ∈ numericCols (Samples.df_plain 24).
Proof. compute_done. Defined.

Lemma df_plain_rows : (24 ≤ length (rows (Samples.df_plain 24)))%nat.
Proof. compute_done. Defined.


Lemma train_then_predict_witness :
  @finite_host Samples.utc_host
  ∧ complete_table (Samples.df_plain 24)
  ∧ "a" ∈ numericCols (Samples.df_plain 24)
  ∧ "a" ≠ ""
  ∧ (24 ≤ length (rows (Samples.df_plain 24)))%nat
  ∧ df Samples.state20 = Some (Samples.df_plain 24)
  ∧ target Samples.state20 = Some "a"
  ∧ ∃ s1 m v,
      @train Samples.utc_host Samples.state20 = Some s1
      ∧ fitCART (X (@Xy Samples.utc_host (Some (Samples.df_plain 24)) (Some "a")))
                (y (@Xy Samples.utc_host (Some (Samples.df_plain 24)) (Some "a")))
        = Some m
      ∧ length (X (@Xy Samples.utc_host (Some (Samples.df_plain 24)) (Some "a")))
        = (length (rows (Samples.df_plain 24)) - 4)%nat
      ∧ model s1 = Some m
      ∧ nFeatures m = width_of (Samples.df_plain 24) "a"
      ∧ prediction s1 = None
      ∧ prediction (@predict Samples.utc_host s1) = Some v
      ∧ v = predictTree (root m)
              (@makeXAt Samples.utc_host (Samples.df_plain 24) "a"
                 (Z.of_nat (length (rows (Samples.df_plain 24))) - 1)).
Proof.
  split; [exact utc_host_finite|]. split; [exact df_plain_complete|].
  split; [exact df_plain_target|]. split; [exact target_a_named|].
  split; [exact df_plain_rows|]. split; [reflexivity|]. split; [reflexivity|].
  exact (@train_then_predict Samples.utc_host (Samples.df_plain 24) "a"
           Samples.state20
           utc_host_finite df_plain_complete df_plain_target target_a_named
           df_plain_rows eq_refl eq_refl).
Defined.
